(** * Library management: circulation ledger

    A shallow embedding of [library_management.py]: the book inventory, the
    member roster, the issue records and the five menu operations that change
    them ([add_book], [update_book], [register_member], [issue_book],
    [return_book]), followed by the properties of the issue / return / fine
    life cycle.

    Conventions of the embedding.
    - Python [int] is [Z]; [str] is [string] (byte strings: the ASCII part of
      Python's text model); [Optional[T]] is [option T].
    - The three module-level dictionaries are finite maps ([gmap]); every
      dataclass instance lives under exactly one key and is never shared, so
      "mutate the object found by [dict.get]" is "re-insert at that key".
    - An operation takes as arguments the values its body obtains from
      [input(...).strip()] and from [datetime.today()], and returns the lines
      it prints (one constructor of [message] per [print] that reports an
      outcome; banners and prompts are left out) with the new store. *)

From Stdlib Require Import ZArith Ascii String List.
From stdpp Require Import gmap strings list fin_maps.

Open Scope string_scope.
Open Scope list_scope.
Open Scope Z_scope.

(** ** Configuration constants *)

Definition FINE_PER_DAY : Z := 5.
Definition MAX_FINE_LIMIT : Z := 500.
Definition ISSUE_DAYS : Z := 14.

(** ** Dates

    A [datetime] is a calendar day (the proleptic Gregorian ordinal of
    [datetime.date()]) and the time of day in microseconds.  Only the
    operations the ledger uses are modelled: [.date()], the difference of two
    dates in days, and adding a [timedelta(days=n)]. The range limit of
    Python's [datetime] (years 1 to 9999) is not modelled. *)

Record datetime := mk_datetime { dt_day : Z; dt_micros : Z }.

Definition date (d : datetime) : Z := dt_day d.

Definition add_days (d : datetime) (n : Z) : datetime :=
  {| dt_day := dt_day d + n; dt_micros := dt_micros d |}.

#[global] Instance datetime_eq_dec : EqDecision datetime.
Proof. solve_decision. Defined.

(** ** Data model *)

Record Book := mk_Book {
  book_id : string;
  title : string;
  author : string;
  category : string;
  total_copies : Z;
  available_copies : Z
}.

Record Member := mk_Member {
  member_id : string;
  name : string;
  phone : string;
  blocked : bool;
  outstanding_fine : Z;
  borrowed_books : list string
}.

Record IssueRecord := mk_IssueRecord {
  issue_id : Z;
  issue_book_id : string;
  issue_member_id : string;
  issue_date : datetime;
  due_date : datetime;
  return_date : option datetime;
  fine_charged : Z
}.

(** [IssueRecord.days_late]: [effective_date = self.return_date or on_date]
    (a [datetime] is always truthy), then the day difference clamped at 0. *)
Definition days_late (r : IssueRecord) (on_date : datetime) : Z :=
  let effective_date :=
    match return_date r with Some d => d | None => on_date end in
  let delta_days := date effective_date - date (due_date r) in
  Z.max 0 delta_days.

(** Field assignments of the dataclasses. *)

Definition set_title (v : string) (b : Book) : Book :=
  mk_Book (book_id b) v (author b) (category b)
          (total_copies b) (available_copies b).
Definition set_author (v : string) (b : Book) : Book :=
  mk_Book (book_id b) (title b) v (category b)
          (total_copies b) (available_copies b).
Definition set_category (v : string) (b : Book) : Book :=
  mk_Book (book_id b) (title b) (author b) v
          (total_copies b) (available_copies b).
Definition set_total_copies (v : Z) (b : Book) : Book :=
  mk_Book (book_id b) (title b) (author b) (category b)
          v (available_copies b).
Definition set_available_copies (v : Z) (b : Book) : Book :=
  mk_Book (book_id b) (title b) (author b) (category b)
          (total_copies b) v.

Definition set_blocked (v : bool) (m : Member) : Member :=
  mk_Member (member_id m) (name m) (phone m) v
            (outstanding_fine m) (borrowed_books m).
Definition set_outstanding_fine (v : Z) (m : Member) : Member :=
  mk_Member (member_id m) (name m) (phone m) (blocked m)
            v (borrowed_books m).
Definition set_borrowed_books (v : list string) (m : Member) : Member :=
  mk_Member (member_id m) (name m) (phone m) (blocked m)
            (outstanding_fine m) v.

Definition set_return_date (v : option datetime) (r : IssueRecord) : IssueRecord :=
  mk_IssueRecord (issue_id r) (issue_book_id r) (issue_member_id r)
                 (issue_date r) (due_date r) v (fine_charged r).
Definition set_fine_charged (v : Z) (r : IssueRecord) : IssueRecord :=
  mk_IssueRecord (issue_id r) (issue_book_id r) (issue_member_id r)
                 (issue_date r) (due_date r) (return_date r) v.

(** ** The in-memory store: [books], [members], [issues], [next_issue_id] *)

Record store := mk_store {
  books : gmap string Book;
  members : gmap string Member;
  issues : gmap Z IssueRecord;
  next_issue_id : Z
}.

Definition initial : store :=
  {| books := ∅; members := ∅; issues := ∅; next_issue_id := 1 |}.

Definition with_books (v : gmap string Book) (s : store) : store :=
  mk_store v (members s) (issues s) (next_issue_id s).
Definition with_members (v : gmap string Member) (s : store) : store :=
  mk_store (books s) v (issues s) (next_issue_id s).
Definition with_issues (v : gmap Z IssueRecord) (s : store) : store :=
  mk_store (books s) (members s) v (next_issue_id s).
Definition with_next_issue_id (v : Z) (s : store) : store :=
  mk_store (books s) (members s) (issues s) v.

(** ** Python helpers on strings and lists

    Strings are read byte by byte: a byte above 127 is neither white space nor
    a digit here, which leaves out the Unicode spaces and digits that
    [str.isdigit] and [int] also know. The limit that recent interpreters put
    on the number of digits [int] converts is not modelled; [plain] tells the
    lines on which neither matters. [str.strip] itself is not needed: the
    operations receive what the code has stripped already. *)

Module Py.

(** The white space [int] skips before and after the number in an ASCII
    string: tab, line feed, vertical tab, form feed, carriage return (9 to 13)
    and the space (32). *)
Definition is_space (a : ascii) : bool :=
  let n := nat_of_ascii a in
  ((9 <=? n) && (n <=? 13) || (n =? 32))%nat.

Definition is_digit (a : ascii) : bool :=
  let n := nat_of_ascii a in ((48 <=? n) && (n <=? 57))%nat.

Definition digit_value (a : ascii) : Z := Z.of_nat (nat_of_ascii a) - 48.

Fixpoint lstrip (l : list ascii) : list ascii :=
  match l with
  | a :: l' => if is_space a then lstrip l' else l
  | [] => []
  end.

Definition strip (l : list ascii) : list ascii :=
  rev (lstrip (rev (lstrip l))).

(** The digit part of an [int] literal read by [int(str)]: decimal digits,
    with single underscores allowed between digits. [seen] tells whether the
    previous character was a digit. *)
Fixpoint digits (acc : Z) (seen : bool) (l : list ascii) : option Z :=
  match l with
  | [] => if seen then Some acc else None
  | a :: l' =>
      if is_digit a then digits (10 * acc + digit_value a) true l'
      else if Ascii.eqb a "_" then
        (if seen then digits acc false l' else None)
      else None
  end.

(** [int(s)]: [None] stands for [ValueError]. *)
Definition int (s : string) : option Z :=
  match strip (list_ascii_of_string s) with
  | "+"%char :: l => digits 0 false l
  | "-"%char :: l => Z.opp <$> digits 0 false l
  | l => digits 0 false l
  end.

(** A line on which this model of [int] is the interpreter's: ASCII only, and
    of at most 4300 characters, so that no limit on the number of digits
    applies. *)
Definition plain (s : string) : bool :=
  forallb (λ a, (nat_of_ascii a <? 128)%nat) (list_ascii_of_string s)
  && (String.length s <=? 4300)%nat.

(** [s.isdigit()]: non-empty and made of digits only. *)
Definition isdigit (s : string) : bool :=
  match list_ascii_of_string s with
  | [] => false
  | l => forallb is_digit l
  end.

(** Truth value of a [str]: non-empty. *)
Definition truthy (s : string) : bool :=
  match s with EmptyString => false | _ => true end.

(** [x in l] and [l.remove(x)] (first occurrence) on a list of strings. *)
Definition contains (x : string) (l : list string) : bool :=
  bool_decide (x ∈ l).

Fixpoint remove (x : string) (l : list string) : list string :=
  match l with
  | [] => []
  | y :: l' => if decide (x = y) then l' else y :: remove x l'
  end.

End Py.

(** ** Printed outcomes *)

Inductive message :=
| MsgValueTooSmall (minimum : Z)   (* Value must be >= {minimum} *)
| MsgNotAnInteger                  (* Please enter a valid integer. *)
| MsgEOFError                      (* uncaught EOFError of input(): the process ends *)
| MsgValueError                    (* uncaught ValueError of int(): the process ends *)
| MsgBookIdExists                  (* Book ID already exists. Use update option instead. *)
| MsgBookAdded                     (* Book added successfully. *)
| MsgBookNotFound                  (* Book not found. *)
| MsgCannotReduce                  (* Cannot reduce below number of currently issued copies. *)
| MsgInvalidTotal                  (* Invalid total copies. Keeping old value. *)
| MsgBookUpdated (b : Book)        (* Book updated: {book} *)
| MsgMemberIdExists                (* Member ID already exists. *)
| MsgMemberRegistered              (* Member registered successfully. *)
| MsgMemberNotFound                (* Member not found. *)
| MsgMemberBlocked                 (* Member is BLOCKED due to high outstanding fines. *)
| MsgNoCopies                      (* No available copies to issue. *)
| MsgBookIssued (r : IssueRecord)  (* Book issued successfully. / Due date / {record} *)
| MsgIssueIdNotNumber              (* Issue ID must be a number. *)
| MsgIssueNotFound                 (* Issue record not found. *)
| MsgAlreadyReturned               (* Book already returned. *)
| MsgRecordMissing                 (* Book or Member record missing. Cannot proceed safely. *)
| MsgReturnRecorded (late_days fine outstanding : Z)
                                   (* Book return recorded. / Late days, fine / outstanding *)
| MsgNowBlocked.                   (* Member is now BLOCKED due to high fines. *)

(** The error kinds under which the design document files the messages. *)
Inductive error_kind :=
| NotFound | DuplicateKey | InvalidArgument | InvalidOperation
| MemberBlocked | NoAvailability | AlreadyReturned | DataIntegrity.

Definition kind_of (m : message) : option error_kind :=
  match m with
  | MsgBookNotFound | MsgMemberNotFound | MsgIssueNotFound => Some NotFound
  | MsgBookIdExists | MsgMemberIdExists => Some DuplicateKey
  | MsgValueTooSmall _ | MsgNotAnInteger | MsgInvalidTotal
  | MsgIssueIdNotNumber => Some InvalidArgument
  | MsgCannotReduce => Some InvalidOperation
  | MsgMemberBlocked => Some MemberBlocked
  | MsgNoCopies => Some NoAvailability
  | MsgAlreadyReturned => Some AlreadyReturned
  | MsgRecordMissing => Some DataIntegrity
  | _ => None
  end.

(** The error kinds reported by one call. *)
Definition errors (out : list message) : list error_kind :=
  omap kind_of out.

(** ** Helper functions of the program *)

(** [input_int(prompt, minimum)]: the [while True] loop reads lines until one
    is an integer not below [minimum]. [lines] are the lines that standard
    input still holds for this prompt; running out of them is the [EOFError]
    of [input], which nothing catches ([None]). *)
Fixpoint input_int (lines : list string) (minimum : Z)
  : list message * option Z :=
  match lines with
  | [] => ([], None)
  | line :: rest =>
      match Py.int line with
      | Some value =>
          if value <? minimum then
            let '(out, r) := input_int rest minimum in
            (MsgValueTooSmall minimum :: out, r)
          else ([], Some value)
      | None =>
          let '(out, r) := input_int rest minimum in
          (MsgNotAnInteger :: out, r)
      end
  end.

(** [check_and_update_block_status(member)] *)
Definition check_and_update_block_status (member : Member) : Member :=
  if MAX_FINE_LIMIT <=? outstanding_fine member
  then set_blocked true member
  else set_blocked false member.

(** ** Book functions *)

Definition add_book (bid ttl auth cat : string) (total_lines : list string)
    (s : store) : list message * store :=
  match books s !! bid with
  | Some _ => ([MsgBookIdExists], s)
  | None =>
      match input_int total_lines 1 with
      | (out, None) => (out ++ [MsgEOFError], s)
      | (out, Some total) =>
          let book := {| book_id := bid; title := ttl; author := auth;
                         category := cat; total_copies := total;
                         available_copies := total |} in
          (out ++ [MsgBookAdded], with_books (<[bid := book]> (books s)) s)
      end
  end.

(** [update_book]. The test [new_total < len(book_id)] of the source guards a
    [pass] and is kept as the branch that changes nothing. *)
Definition update_book (bid new_title new_author new_category new_total_str : string)
    (s : store) : list message * store :=
  match books s !! bid with
  | None => ([MsgBookNotFound], s)
  | Some book =>
      let book := if Py.truthy new_title then set_title new_title book else book in
      let book := if Py.truthy new_author then set_author new_author book else book in
      let book := if Py.truthy new_category then set_category new_category book else book in
      let '(out, book) :=
        if Py.truthy new_total_str then
          match Py.int new_total_str with
          | Some new_total =>
              let book :=
                if new_total <? Z.of_nat (String.length bid) then book else book in
              if new_total <? total_copies book - available_copies book then
                ([MsgCannotReduce], book)
              else
                let diff := new_total - total_copies book in
                let book := set_total_copies new_total book in
                let book := set_available_copies (available_copies book + diff) book in
                ([], book)
          | None => ([MsgInvalidTotal], book)
          end
        else ([], book) in
      (out ++ [MsgBookUpdated book], with_books (<[bid := book]> (books s)) s)
  end.

(** ** Member functions *)

Definition register_member (mid nm ph : string) (s : store)
  : list message * store :=
  match members s !! mid with
  | Some _ => ([MsgMemberIdExists], s)
  | None =>
      let member := {| member_id := mid; name := nm; phone := ph;
                       blocked := false; outstanding_fine := 0;
                       borrowed_books := [] |} in
      ([MsgMemberRegistered], with_members (<[mid := member]> (members s)) s)
  end.

(** ** Issue and return *)

Definition issue_book (bid mid : string) (today : datetime) (s : store)
  : list message * store :=
  match books s !! bid with
  | None => ([MsgBookNotFound], s)
  | Some book =>
      match members s !! mid with
      | None => ([MsgMemberNotFound], s)
      | Some member =>
          let member := check_and_update_block_status member in
          let s := with_members (<[mid := member]> (members s)) s in
          if blocked member then ([MsgMemberBlocked], s)
          else if available_copies book <=? 0 then ([MsgNoCopies], s)
          else
            let issue_date := today in
            let due_date := add_days issue_date ISSUE_DAYS in
            let record := {| issue_id := next_issue_id s;
                             issue_book_id := bid;
                             issue_member_id := mid;
                             issue_date := issue_date;
                             due_date := due_date;
                             return_date := None;
                             fine_charged := 0 |} in
            let s := with_issues (<[next_issue_id s := record]> (issues s)) s in
            let s := with_next_issue_id (next_issue_id s + 1) s in
            let book := set_available_copies (available_copies book - 1) book in
            let member := set_borrowed_books (borrowed_books member ++ [bid]) member in
            ([MsgBookIssued record],
             with_members (<[mid := member]> (members s))
               (with_books (<[bid := book]> (books s)) s))
      end
  end.

Definition return_book (issue_id_str : string) (today : datetime) (s : store)
  : list message * store :=
  if negb (Py.isdigit issue_id_str) then ([MsgIssueIdNotNumber], s)
  else
    match Py.int issue_id_str with
    | None => ([MsgValueError], s)
    | Some iid =>
        match issues s !! iid with
        | None => ([MsgIssueNotFound], s)
        | Some record =>
            match return_date record with
            | Some _ => ([MsgAlreadyReturned], s)
            | None =>
                match books s !! issue_book_id record,
                      members s !! issue_member_id record with
                | Some book, Some member =>
                    let record := set_return_date (Some today) record in
                    let late_days := days_late record today in
                    let fine := late_days * FINE_PER_DAY in
                    let record := set_fine_charged fine record in
                    let member :=
                      set_outstanding_fine (outstanding_fine member + fine) member in
                    let member := check_and_update_block_status member in
                    let book :=
                      set_available_copies (available_copies book + 1) book in
                    let member :=
                      if Py.contains (issue_book_id record) (borrowed_books member)
                      then set_borrowed_books
                             (Py.remove (issue_book_id record) (borrowed_books member))
                             member
                      else member in
                    (MsgReturnRecorded late_days fine (outstanding_fine member)
                       :: (if blocked member then [MsgNowBlocked] else []),
                     {| books := <[issue_book_id record := book]> (books s);
                        members := <[issue_member_id record := member]> (members s);
                        issues := <[iid := record]> (issues s);
                        next_issue_id := next_issue_id s |})
                | _, _ => ([MsgRecordMissing], s)
                end
            end
        end
    end.

(** ** The menu loop as a sequence of commands

    [main] dispatches one menu choice after the other; the choices that only
    display data leave the store alone and are not commands. An operation
    that ends the process with an uncaught exception leaves the store as it
    was, so the stores reached are those of the completed operations. *)

Inductive command :=
| AddBook (bid ttl auth cat : string) (total_lines : list string)
| UpdateBook (bid new_title new_author new_category new_total_str : string)
| RegisterMember (mid nm ph : string)
| IssueBook (bid mid : string) (today : datetime)
| ReturnBook (issue_id_str : string) (today : datetime).

Definition exec (c : command) (s : store) : list message * store :=
  match c with
  | AddBook bid ttl auth cat total_lines => add_book bid ttl auth cat total_lines s
  | UpdateBook bid t a c n => update_book bid t a c n s
  | RegisterMember mid nm ph => register_member mid nm ph s
  | IssueBook bid mid today => issue_book bid mid today s
  | ReturnBook i today => return_book i today s
  end.

Fixpoint run (cs : list command) (s : store) : store :=
  match cs with
  | [] => s
  | c :: cs' => run cs' (exec c s).2
  end.

Definition reachable (s : store) : Prop := ∃ cs, run cs initial = s.

(** ** Small runs used as test data *)

Definition day (n : Z) : datetime := {| dt_day := n; dt_micros := 0 |}.

Definition setup (copies : string) : list command :=
  [AddBook "B1" "Dune" "Herbert" "Fiction" [copies];
   RegisterMember "M1" "Asha" "555"].

(** One book with the given number of copies, one member, nothing lent. *)
Definition one_book_one_member (copies : string) : store :=
  run (setup copies) initial.

(** The single copy lent on day 0 (due on day 14). *)
Definition lent_once : store :=
  run (setup "1" ++ [IssueBook "B1" "M1" (day 0)]) initial.

(** ... and returned on day 20, six days late. *)
Definition returned_late : store :=
  run (setup "1" ++ [IssueBook "B1" "M1" (day 0); ReturnBook "1" (day 20)])
      initial.

(** Two copies of the same book lent to the same member. *)
Definition lent_twice : store :=
  run (setup "2" ++ [IssueBook "B1" "M1" (day 0); IssueBook "B1" "M1" (day 1)])
      initial.

(** ... the first of them returned on day 200: the fine of 930 blocks the
    member, who still holds the second copy. *)
Definition blocked_with_loan : store :=
  run (setup "2" ++ [IssueBook "B1" "M1" (day 0); IssueBook "B1" "M1" (day 1);
                     ReturnBook "1" (day 200)]) initial.

(** The total of a book nobody holds is updated to 0. *)
Definition zero_total : store :=
  run (setup "1" ++ [UpdateBook "B1" "" "" "" "0"]) initial.

(** A store outside the reachable ones: the flag of a member without fines
    is set. *)
Definition stale_flag : store :=
  with_members
    {[ "M1" := {| member_id := "M1"; name := "Asha"; phone := "555";
                  blocked := true; outstanding_fine := 0;
                  borrowed_books := [] |} ]}
    (one_book_one_member "1").

(** ** Counting issue records and list occurrences *)

(** Number of records of the ledger that satisfy [P]. *)
Definition count_records (P : IssueRecord → Prop) `{!∀ r, Decision (P r)}
    (iss : gmap Z IssueRecord) : nat :=
  size (filter (λ kr : Z * IssueRecord, P kr.2) iss).

(** A record that is still out: [return_date is None]. *)
Definition active (r : IssueRecord) : Prop := return_date r = None.

(** Active loans of book [bid]. *)
Definition loan_of (bid : string) (r : IssueRecord) : Prop :=
  issue_book_id r = bid ∧ active r.

(** Active loans of book [bid] to member [mid]. *)
Definition held_by (mid bid : string) (r : IssueRecord) : Prop :=
  issue_member_id r = mid ∧ issue_book_id r = bid ∧ active r.

#[global] Instance active_dec r : Decision (active r).
Proof. unfold active. apply _. Defined.
#[global] Instance loan_of_dec bid r : Decision (loan_of bid r).
Proof. unfold loan_of. apply _. Defined.
#[global] Instance held_by_dec mid bid r : Decision (held_by mid bid r).
Proof. unfold held_by. apply _. Defined.

(** Number of times [x] occurs in [l]. *)
Definition occurrences (x : string) (l : list string) : nat :=
  length (filter (λ y, y = x) l).

(** 1 if [P] holds, else 0. *)
Definition indicator (P : Prop) `{!Decision P} : nat :=
  if decide P then 1%nat else 0%nat.

(** ** Consistency of a store

    What every store reached from [initial] satisfies: issue ids lie below the
    counter, records refer to existing books and members, the blocked flag is
    the derived one, and the copy counters and [borrowed_books] lists agree
    with the active records. *)
Record wf (s : store) : Prop := {
  wf_next : 1 ≤ next_issue_id s;
  wf_ids : ∀ k r, issues s !! k = Some r →
    1 ≤ k < next_issue_id s ∧ issue_id r = k;
  wf_refs : ∀ k r, issues s !! k = Some r →
    is_Some (books s !! issue_book_id r) ∧
    is_Some (members s !! issue_member_id r);
  wf_record : ∀ k r, issues s !! k = Some r →
    due_date r = add_days (issue_date r) ISSUE_DAYS ∧
    0 ≤ fine_charged r ∧ (active r → fine_charged r = 0);
  wf_book_key : ∀ k b, books s !! k = Some b → book_id b = k;
  wf_member_key : ∀ k m, members s !! k = Some m → member_id m = k;
  wf_block : ∀ k m, members s !! k = Some m →
    blocked m = bool_decide (MAX_FINE_LIMIT ≤ outstanding_fine m);
  wf_fine : ∀ k m, members s !! k = Some m → 0 ≤ outstanding_fine m;
  wf_issued : ∀ k b, books s !! k = Some b →
    total_copies b - available_copies b
    = Z.of_nat (count_records (loan_of k) (issues s));
  wf_avail : ∀ k b, books s !! k = Some b → 0 ≤ available_copies b;
  wf_held : ∀ k m bid, members s !! k = Some m →
    occurrences bid (borrowed_books m)
    = count_records (held_by k bid) (issues s)
}.

(** ** Overdue test and reports

    The report functions print; here they return what they print, one
    [report_line] per [print] of the loop bodies and of the "nothing to show"
    branches (the title banners are left out). *)

(** Order of two [datetime] values: by calendar day, then by time of day. *)
Definition datetime_ltb (a b : datetime) : bool :=
  (dt_day a <? dt_day b)
  || ((dt_day a =? dt_day b) && (dt_micros a <? dt_micros b)).

(** [IssueRecord.is_overdue(on_date)]; [today] is the value [datetime.today()]
    has when [on_date] is [None]. *)
Definition is_overdue (r : IssueRecord) (on_date : option datetime)
    (today : datetime) : bool :=
  let on_date := match on_date with None => today | Some d => d end in
  match return_date r with
  | Some d => datetime_ltb (due_date r) d
  | None => datetime_ltb (due_date r) on_date
  end.

(** [issues.values()]. A [dict] is iterated in the order its keys were first
    inserted; [issue_book] is the only function that inserts into [issues],
    under the current [next_issue_id], which it then increments, so that order
    is the order of the ids from 1 up to the counter. *)
Definition issue_values (s : store) : list IssueRecord :=
  omap (λ k, issues s !! k) (seqZ 1 (next_issue_id s - 1)).

Inductive report_line :=
| LineNoActiveIssues               (* No active issues. *)
| LineNoReminders                  (* No books are due soon or overdue. *)
| LineRecord (r : IssueRecord)     (* {record} *)
| LineOverdue (iid : Z) (book_title member_name : string)
              (due : datetime) (late_by : Z)
                                   (* [OVERDUE] IssueID .. | Book .. | Member .. | Due .. | Late by .. day(s) *)
| LineDueSoon (iid : Z) (book_title member_name : string)
              (days_to_due : Z) (due : datetime).
                                   (* [DUE SOON] IssueID .. | Book .. | Member .. | Due in .. day(s) on .. *)

Definition view_active_issues (s : store) : list report_line :=
  let active := filter (λ r, return_date r = None) (issue_values s) in
  match active with
  | [] => [LineNoActiveIssues]
  | _ => LineRecord <$> active
  end.

(** The body of the loop of [show_due_and_overdue_reminders] for one record. *)
Definition reminder (today : datetime) (s : store) (r : IssueRecord)
  : list report_line :=
  match return_date r with
  | Some _ => []
  | None =>
      let days_to_due := date (due_date r) - date today in
      let member_name :=
        match members s !! issue_member_id r with
        | Some member => name member
        | None => "Unknown"
        end in
      let book_title :=
        match books s !! issue_book_id r with
        | Some book => title book
        | None => "Unknown"
        end in
      if days_to_due <? 0 then
        [LineOverdue (issue_id r) book_title member_name (due_date r)
                     (- days_to_due)]
      else if days_to_due <=? 2 then
        [LineDueSoon (issue_id r) book_title member_name days_to_due
                     (due_date r)]
      else []
  end.

Definition show_due_and_overdue_reminders (today : datetime) (s : store)
  : list report_line :=
  match issue_values s ≫= reminder today s with
  | [] => [LineNoReminders]
  | lines => lines
  end.

(** ** Bookkeeping used in the statements *)

(** Sum of the fines charged on the records of member [mid]. *)
Definition fines_of (mid : string) (iss : gmap Z IssueRecord) : Z :=
  map_fold (λ (_ : Z) r acc,
              (if decide (issue_member_id r = mid) then fine_charged r else 0)
              + acc) 0 iss.

(** The share of record [r] in the fines of member [mid]. *)
Definition fine_term (mid : string) (r : IssueRecord) : Z :=
  if decide (issue_member_id r = mid) then fine_charged r else 0.

(** What one operation does to a consistent store, case by case: nothing, a
    new book, an updated book, a new member, a loan, a return. *)
Inductive step (s : store) : store → Prop :=
| step_none : step s s
| step_add bid b :
    books s !! bid = None →
    book_id b = bid →
    1 ≤ total_copies b →
    available_copies b = total_copies b →
    step s (with_books (<[bid := b]> (books s)) s)
| step_update bid b b' :
    books s !! bid = Some b →
    book_id b' = book_id b →
    total_copies b' - available_copies b' = total_copies b - available_copies b →
    step s (with_books (<[bid := b']> (books s)) s)
| step_register mid nm ph :
    members s !! mid = None →
    step s (with_members
              (<[mid := mk_Member mid nm ph false 0 []]> (members s)) s)
| step_issue bid mid today b m :
    books s !! bid = Some b →
    members s !! mid = Some m →
    blocked m = false →
    0 < available_copies b →
    issues s !! next_issue_id s = None →
    step s {| books := <[bid := set_available_copies (available_copies b - 1) b]>
                         (books s);
              members := <[mid := set_borrowed_books (borrowed_books m ++ [bid]) m]>
                           (members s);
              issues := <[next_issue_id s :=
                           mk_IssueRecord (next_issue_id s) bid mid today
                             (add_days today ISSUE_DAYS) None 0]> (issues s);
              next_issue_id := next_issue_id s + 1 |}
| step_return iid r b m today :
    issues s !! iid = Some r →
    return_date r = None →
    books s !! issue_book_id r = Some b →
    members s !! issue_member_id r = Some m →
    issue_book_id r ∈ borrowed_books m →
    step s {| books := <[issue_book_id r :=
                          set_available_copies (available_copies b + 1) b]>
                         (books s);
              members :=
                <[issue_member_id r :=
                   set_borrowed_books
                     (Py.remove (issue_book_id r) (borrowed_books m))
                     (check_and_update_block_status
                        (set_outstanding_fine
                           (outstanding_fine m
                            + days_late r today * FINE_PER_DAY) m))]>
                  (members s);
              issues := <[iid := set_fine_charged
                                   (days_late r today * FINE_PER_DAY)
                                   (set_return_date (Some today) r)]> (issues s);
              next_issue_id := next_issue_id s |}.

(** What a later store keeps of an earlier one. *)

Definition member_kept (s s' : store) : Prop :=
  ∀ k m, members s !! k = Some m →
    ∃ m', members s' !! k = Some m' ∧
          member_id m' = member_id m ∧ name m' = name m ∧ phone m' = phone m ∧
          outstanding_fine m ≤ outstanding_fine m'.

Definition book_kept (s s' : store) : Prop :=
  ∀ k b, books s !! k = Some b →
    ∃ b', books s' !! k = Some b' ∧ book_id b' = book_id b.

Definition record_kept (s s' : store) : Prop :=
  next_issue_id s ≤ next_issue_id s' ∧
  ∀ k r, issues s !! k = Some r →
    ∃ r', issues s' !! k = Some r' ∧
          issue_id r' = issue_id r ∧
          issue_book_id r' = issue_book_id r ∧
          issue_member_id r' = issue_member_id r ∧
          issue_date r' = issue_date r ∧
          due_date r' = due_date r ∧
          (is_Some (return_date r) → r' = r).

Section counting.
Context (P : IssueRecord → Prop) `{!∀ r, Decision (P r)}.

Lemma count_records_empty : count_records P ∅ = 0%nat.
Proof. unfold count_records. by rewrite map_filter_empty, map_size_empty. Qed.

Lemma count_records_insert_new iss k r :
  iss !! k = None →
  count_records P (<[k:=r]> iss) = (count_records P iss + indicator (P r))%nat.
Proof.
  intros Hk. unfold count_records, indicator.
  rewrite map_filter_insert. simpl.
  assert (Hf : filter (λ kr : Z * IssueRecord, P kr.2) iss !! k = None).
  { apply map_lookup_filter_None. left. exact Hk. }
  destruct (decide (P r)).
  - rewrite map_size_insert_None by exact Hf. lia.
  - rewrite map_filter_delete, map_size_delete_None by exact Hf. lia.
Qed.

Lemma count_records_insert_old iss k r0 r :
  iss !! k = Some r0 →
  (count_records P (<[k:=r]> iss) + indicator (P r0))%nat
  = (count_records P iss + indicator (P r))%nat.
Proof.
  intros Hk. unfold count_records, indicator.
  rewrite map_filter_insert. simpl.
  set (f := filter (λ kr : Z * IssueRecord, P kr.2) iss).
  assert (Hf : f !! k = if decide (P r0) then Some r0 else None).
  { subst f. destruct (decide (P r0)) as [H0|H0].
    - apply map_lookup_filter_Some. split; [exact Hk | exact H0].
    - apply map_lookup_filter_None. right. intros x Hx.
      rewrite Hk in Hx. injection Hx as <-. exact H0. }
  assert (Hpos : ∀ x, f !! k = Some x → (0 < size f)%nat).
  { intros x Hx. pose proof (map_size_ne_0_lookup_2 f k) as Hn.
    specialize (Hn (ex_intro _ x Hx)). lia. }
  destruct (decide (P r)); destruct (decide (P r0)).
  - rewrite map_size_insert, Hf. simpl. lia.
  - rewrite map_size_insert, Hf. simpl. lia.
  - rewrite map_filter_delete. fold f. rewrite map_size_delete, Hf. simpl.
    specialize (Hpos _ Hf). lia.
  - rewrite map_filter_delete. fold f. rewrite map_size_delete, Hf. simpl. lia.
Qed.

Lemma count_records_pos iss k r :
  iss !! k = Some r → P r → (0 < count_records P iss)%nat.
Proof.
  intros Hk HP. unfold count_records.
  pose proof (map_size_ne_0_lookup_2
                (filter (λ kr : Z * IssueRecord, P kr.2) iss) k) as Hn.
  assert (is_Some (filter (λ kr : Z * IssueRecord, P kr.2) iss !! k)) as Hs.
  { exists r. apply map_lookup_filter_Some. split; [exact Hk | exact HP]. }
  specialize (Hn Hs). lia.
Qed.

Lemma count_records_none iss :
  (∀ k r, iss !! k = Some r → ¬ P r) → count_records P iss = 0%nat.
Proof.
  intros Hnone. unfold count_records.
  rewrite (map_empty_filter_2 (λ kr : Z * IssueRecord, P kr.2) iss).
  - apply map_size_empty.
  - intros k r Hk. simpl. by apply (Hnone k).
Qed.
End counting.

Lemma indicator_true (P : Prop) `{!Decision P} : P → indicator P = 1%nat.
Proof. intros H. unfold indicator. by rewrite decide_True. Qed.

Lemma indicator_false (P : Prop) `{!Decision P} : ¬ P → indicator P = 0%nat.
Proof. intros H. unfold indicator. by rewrite decide_False. Qed.

Lemma occurrences_app x l1 l2 :
  occurrences x (l1 ++ l2) = (occurrences x l1 + occurrences x l2)%nat.
Proof. unfold occurrences. by rewrite filter_app, length_app. Qed.

Lemma occurrences_pos x l : x ∈ l ↔ (0 < occurrences x l)%nat.
Proof.
  unfold occurrences. induction l as [|y l IH]; simpl.
  - split; [intros H; inversion H | lia].
  - rewrite elem_of_cons, filter_cons. destruct (decide (y = x)) as [->|Hne]; simpl.
    + split; [lia | by left].
    + rewrite <- IH. split; [intros [->|H]; [done | exact H] | by right].
Qed.

Lemma occurrences_remove_same x l :
  x ∈ l → S (occurrences x (Py.remove x l)) = occurrences x l.
Proof.
  unfold occurrences. induction l as [|y l IH]; simpl; intros Hin.
  - inversion Hin.
  - destruct (decide (x = y)) as [<-|Hne].
    + by rewrite filter_cons_True.
    + rewrite !filter_cons_False by congruence. apply IH.
      apply elem_of_cons in Hin as [->|H]; [done | exact H].
Qed.

Lemma occurrences_remove_other x y l :
  x ≠ y → occurrences y (Py.remove x l) = occurrences y l.
Proof.
  intros Hxy. unfold occurrences. induction l as [|z l IH]; simpl; [done|].
  destruct (decide (x = z)) as [<-|Hne].
  - by rewrite filter_cons_False.
  - rewrite !filter_cons. destruct (decide (z = y)); simpl; by rewrite IH.
Qed.

(** ** The operations keep the store consistent *)

Lemma input_int_minimum lines minimum out v :
  input_int lines minimum = (out, Some v) → minimum ≤ v.
Proof.
  revert out. induction lines as [|line rest IH]; simpl; intros out H; [congruence|].
  destruct (Py.int line) as [value|].
  - destruct (value <? minimum) eqn:Hlt.
    + destruct (input_int rest minimum) as [o r]. injection H as _ ->. by eapply IH.
    + injection H as _ <-. lia.
  - destruct (input_int rest minimum) as [o r]. injection H as _ ->. by eapply IH.
Qed.

Lemma check_and_update_block_status_fields m :
  let m' := check_and_update_block_status m in
  member_id m' = member_id m ∧ name m' = name m ∧ phone m' = phone m ∧
  outstanding_fine m' = outstanding_fine m ∧
  borrowed_books m' = borrowed_books m ∧
  blocked m' = bool_decide (MAX_FINE_LIMIT ≤ outstanding_fine m).
Proof.
  unfold check_and_update_block_status.
  destruct (MAX_FINE_LIMIT <=? outstanding_fine m) eqn:H; simpl.
  - apply Z.leb_le in H. by rewrite bool_decide_eq_true_2.
  - apply Z.leb_gt in H. rewrite bool_decide_eq_false_2; [done | lia].
Qed.

Lemma initial_wf : wf initial.
Proof.
  split; simpl; intros; try lia;
    match goal with H : ∅ !! _ = Some _ |- _ => by rewrite lookup_empty in H end.
Qed.

Lemma add_book_wf bid ttl auth cat total_lines s :
  wf s → wf (add_book bid ttl auth cat total_lines s).2.
Proof.
  intros W. unfold add_book.
  destruct (books s !! bid) as [b0|] eqn:Hb; [exact W|].
  destruct (input_int total_lines 1) as [out [total|]] eqn:Hin; [|exact W].
  apply input_int_minimum in Hin.
  destruct W. split; simpl; try assumption.
  - intros k r Hk. destruct (wf_refs0 k r Hk) as [[b Hbk] Hm]. split; [|exact Hm].
    destruct (decide (bid = issue_book_id r)) as [->|Hne].
    + rewrite lookup_insert_eq. eauto.
    + rewrite lookup_insert_ne by exact Hne. eauto.
  - intros k b [[<- <-]|[Hne Hk]]%lookup_insert_Some; [done | eauto].
  - intros k b [[<- <-]|[Hne Hk]]%lookup_insert_Some; [|eauto]. simpl.
    rewrite count_records_none; [simpl; lia|].
    intros i r Hi [Hbid _]. destruct (wf_refs0 i r Hi) as [[b Hbk] _]. congruence.
  - intros k b [[<- <-]|[Hne Hk]]%lookup_insert_Some; [simpl; lia | eauto].
Qed.

Lemma register_member_wf mid nm ph s :
  wf s → wf (register_member mid nm ph s).2.
Proof.
  intros W. unfold register_member.
  destruct (members s !! mid) as [m0|] eqn:Hm; [exact W|].
  destruct W. split; simpl; try assumption.
  - intros k r Hk. destruct (wf_refs0 k r Hk) as [Hb [m Hmk]]. split; [exact Hb|].
    destruct (decide (mid = issue_member_id r)) as [->|Hne].
    + rewrite lookup_insert_eq. eauto.
    + rewrite lookup_insert_ne by exact Hne. eauto.
  - intros k m [[<- <-]|[Hne Hk]]%lookup_insert_Some; [done | eauto].
  - intros k m [[<- <-]|[Hne Hk]]%lookup_insert_Some; [done | eauto].
  - intros k m [[<- <-]|[Hne Hk]]%lookup_insert_Some; [simpl; lia | eauto].
  - intros k m bid [[<- <-]|[Hne Hk]]%lookup_insert_Some; [|eauto]. simpl.
    rewrite count_records_none; [done|].
    intros i r Hi [Hmid _]. destruct (wf_refs0 i r Hi) as [_ [m Hmk]]. congruence.
Qed.

Lemma update_book_result bid new_title new_author new_category new_total_str s b :
  books s !! bid = Some b →
  ∃ out b',
    update_book bid new_title new_author new_category new_total_str s
    = (out, with_books (<[bid := b']> (books s)) s) ∧
    book_id b' = book_id b ∧
    total_copies b' - available_copies b' = total_copies b - available_copies b ∧
    (0 ≤ available_copies b → 0 ≤ available_copies b').
Proof.
  intros Hb. unfold update_book. rewrite Hb.
  destruct (Py.truthy new_title), (Py.truthy new_author),
    (Py.truthy new_category), (Py.truthy new_total_str);
    try destruct (Py.int new_total_str) as [n|];
    try destruct (n <? Z.of_nat (String.length bid)); simpl;
    try destruct (n <? total_copies b - available_copies b) eqn:Hlt; simpl;
    try apply Z.ltb_ge in Hlt;
    eexists _, _; (split; [reflexivity|]); simpl; repeat split; lia.
Qed.

Lemma update_book_wf bid new_title new_author new_category new_total_str s :
  wf s → wf (update_book bid new_title new_author new_category new_total_str s).2.
Proof.
  intros W. destruct (books s !! bid) as [b|] eqn:Hb.
  - destruct (update_book_result bid new_title new_author new_category
                new_total_str s b Hb) as (out & b' & -> & Hid & Hiss & Hav).
    destruct W. split; simpl; try assumption.
    + intros k r Hk. destruct (wf_refs0 k r Hk) as [[b0 Hbk] Hm]. split; [|exact Hm].
      destruct (decide (bid = issue_book_id r)) as [->|Hne].
      * rewrite lookup_insert_eq. eauto.
      * rewrite lookup_insert_ne by exact Hne. eauto.
    + intros k b0 [[<- <-]|[Hne Hk]]%lookup_insert_Some; [|eauto].
      rewrite Hid. eauto.
    + intros k b0 [[<- <-]|[Hne Hk]]%lookup_insert_Some; [|eauto].
      rewrite Hiss. eauto.
    + intros k b0 [[<- <-]|[Hne Hk]]%lookup_insert_Some; eauto.
  - unfold update_book. rewrite Hb. exact W.
Qed.

Lemma occurrences_singleton x y :
  occurrences x [y] = indicator (y = x).
Proof.
  unfold occurrences, indicator. rewrite filter_cons, filter_nil.
  by destruct (decide (y = x)).
Qed.

Lemma recheck_wf mid m s :
  wf s → members s !! mid = Some m →
  wf (with_members (<[mid := check_and_update_block_status m]> (members s)) s).
Proof.
  intros W Hm.
  destruct (check_and_update_block_status_fields m)
    as (Hid & _ & _ & Hfine & Hbor & Hbl).
  destruct W. split; simpl; try assumption.
  - intros k r Hk. destruct (wf_refs0 k r Hk) as [Hb [m0 Hmk]]. split; [exact Hb|].
    destruct (decide (mid = issue_member_id r)) as [->|Hne].
    + rewrite lookup_insert_eq. eauto.
    + rewrite lookup_insert_ne by exact Hne. eauto.
  - intros k m0 [[<- <-]|[Hne Hk]]%lookup_insert_Some; [|eauto]. rewrite Hid. eauto.
  - intros k m0 [[<- <-]|[Hne Hk]]%lookup_insert_Some; [|eauto]. by rewrite Hbl, Hfine.
  - intros k m0 [[<- <-]|[Hne Hk]]%lookup_insert_Some; [|eauto]. rewrite Hfine. eauto.
  - intros k m0 bid [[<- <-]|[Hne Hk]]%lookup_insert_Some; [|eauto]. rewrite Hbor. eauto.
Qed.

Lemma issue_book_wf bid mid today s :
  wf s → wf (issue_book bid mid today s).2.
Proof.
  intros W. unfold issue_book.
  destruct (books s !! bid) as [b|] eqn:Hb; [|exact W].
  destruct (members s !! mid) as [m|] eqn:Hm; [|exact W].
  pose proof (recheck_wf mid m s W Hm) as W1.
  destruct (check_and_update_block_status_fields m)
    as (Hid & _ & _ & Hfine & Hbor & Hbl).
  set (m' := check_and_update_block_status m) in *.
  destruct (blocked m') eqn:Hblocked; [exact W1|].
  destruct (available_copies b <=? 0) eqn:Hav; [exact W1|].
  apply Z.leb_gt in Hav. simpl. rewrite insert_insert_eq.
  clear W1. destruct W.
  assert (Hfresh : issues s !! next_issue_id s = None).
  { destruct (issues s !! next_issue_id s) as [r|] eqn:Hr; [|done].
    destruct (wf_ids0 _ _ Hr). lia. }
  split; simpl.
  - lia.
  - intros k r [[<- <-]|[Hne Hk]]%lookup_insert_Some; simpl; [lia|].
    destruct (wf_ids0 k r Hk). lia.
  - intros k r Hk.
    assert (is_Some (books s !! issue_book_id r) ∧
            is_Some (members s !! issue_member_id r)) as [[b0 Hb0] [m0 Hm0]].
    { apply lookup_insert_Some in Hk as [[<- <-]|[Hne Hk]]; simpl; eauto. }
    split.
    + destruct (decide (bid = issue_book_id r)) as [->|Hne];
        [rewrite lookup_insert_eq | rewrite lookup_insert_ne by exact Hne]; eauto.
    + destruct (decide (mid = issue_member_id r)) as [->|Hne];
        [rewrite lookup_insert_eq | rewrite lookup_insert_ne by exact Hne]; eauto.
  - intros k r [[<- <-]|[Hne Hk]]%lookup_insert_Some; simpl; eauto.
    repeat split; lia.
  - intros k b0 [[<- <-]|[Hne Hk]]%lookup_insert_Some; simpl; eauto.
  - intros k m0 [[<- <-]|[Hne Hk]]%lookup_insert_Some; simpl; [|eauto].
    rewrite Hid. eauto.
  - intros k m0 [[<- <-]|[Hne Hk]]%lookup_insert_Some; simpl; [|eauto].
    rewrite Hfine, Hblocked. exact Hbl.
  - intros k m0 [[<- <-]|[Hne Hk]]%lookup_insert_Some; simpl; [|eauto].
    rewrite Hfine. eauto.
  - intros k b0 Hk. rewrite count_records_insert_new by exact Hfresh.
    apply lookup_insert_Some in Hk as [[<- <-]|[Hne Hk]]; simpl.
    + rewrite indicator_true by done. specialize (wf_issued0 _ _ Hb). lia.
    + rewrite indicator_false by (intros [? _]; simpl in *; congruence).
      specialize (wf_issued0 _ _ Hk). lia.
  - intros k b0 [[<- <-]|[Hne Hk]]%lookup_insert_Some; simpl; [lia | eauto].
  - intros k m0 bid0 Hk. rewrite count_records_insert_new by exact Hfresh.
    apply lookup_insert_Some in Hk as [[<- <-]|[Hne Hk]]; simpl.
    + rewrite occurrences_app, occurrences_singleton, Hbor, (wf_held0 _ _ bid0 Hm).
      f_equal. unfold indicator. destruct (decide (bid = bid0)) as [->|Hne].
      * by rewrite decide_True.
      * rewrite decide_False; [done|]. intros (_ & ? & _). simpl in *. congruence.
    + rewrite indicator_false by (intros [? _]; simpl in *; congruence).
      rewrite (wf_held0 _ _ bid0 Hk). lia.
Qed.

Lemma days_late_returned r today :
  days_late (set_return_date (Some today) r) today
  = Z.max 0 (date today - date (due_date r)).
Proof. reflexivity. Qed.

Lemma return_book_wf issue_id_str today s :
  wf s → wf (return_book issue_id_str today s).2.
Proof.
  intros W. unfold return_book.
  destruct (negb (Py.isdigit issue_id_str)); [exact W|].
  destruct (Py.int issue_id_str) as [iid|]; [|exact W].
  destruct (issues s !! iid) as [r|] eqn:Hr; [|exact W].
  destruct (return_date r) as [d|] eqn:Hret; [exact W|].
  destruct (books s !! issue_book_id r) as [b|] eqn:Hb; [|exact W].
  destruct (members s !! issue_member_id r) as [m|] eqn:Hm; [|exact W].
  rewrite days_late_returned.
  set (fine := Z.max 0 (date today - date (due_date r)) * FINE_PER_DAY).
  assert (Hfine0 : 0 ≤ fine) by (unfold fine, FINE_PER_DAY; lia).
  destruct (check_and_update_block_status_fields
              (set_outstanding_fine (outstanding_fine m + fine) m))
    as (Hid & _ & _ & Hfine & Hbor & Hbl).
  set (m1 := check_and_update_block_status
               (set_outstanding_fine (outstanding_fine m + fine) m)) in *.
  simpl in Hid, Hfine, Hbor, Hbl. simpl.
  destruct W.
  assert (Hin : issue_book_id r ∈ borrowed_books m1).
  { rewrite Hbor. apply occurrences_pos.
    rewrite (wf_held0 _ _ (issue_book_id r) Hm).
    apply (count_records_pos _ _ iid r Hr). by repeat split. }
  unfold Py.contains. rewrite bool_decide_eq_true_2 by exact Hin.
  rewrite Hbor in Hin |- *.
  split; simpl.
  - exact wf_next0.
  - intros k r0 [[<- <-]|[Hne Hk]]%lookup_insert_Some; simpl; eauto.
  - intros k r0 Hk.
    assert (is_Some (books s !! issue_book_id r0) ∧
            is_Some (members s !! issue_member_id r0)) as [[b0 Hb0] [m0 Hm0]].
    { apply lookup_insert_Some in Hk as [[<- <-]|[Hne Hk]]; simpl; eauto. }
    split.
    + destruct (decide (issue_book_id r = issue_book_id r0)) as [->|Hne];
        [rewrite lookup_insert_eq | rewrite lookup_insert_ne by exact Hne]; eauto.
    + destruct (decide (issue_member_id r = issue_member_id r0)) as [->|Hne];
        [rewrite lookup_insert_eq | rewrite lookup_insert_ne by exact Hne]; eauto.
  - intros k r0 [[<- <-]|[Hne Hk]]%lookup_insert_Some; simpl; [|eauto].
    destruct (wf_record0 _ _ Hr) as (Hdue & _ & _).
    repeat split; [exact Hdue | exact Hfine0 | intros; discriminate].
  - intros k b0 [[<- <-]|[Hne Hk]]%lookup_insert_Some; simpl; eauto.
  - intros k m0 [[<- <-]|[Hne Hk]]%lookup_insert_Some; simpl; [|eauto].
    rewrite Hid. eauto.
  - intros k m0 [[<- <-]|[Hne Hk]]%lookup_insert_Some; simpl; [|eauto].
    rewrite Hfine. exact Hbl.
  - intros k m0 [[<- <-]|[Hne Hk]]%lookup_insert_Some; simpl; [|eauto].
    rewrite Hfine. specialize (wf_fine0 _ _ Hm). lia.
  - intros k b0 Hk.
    pose proof (count_records_insert_old (loan_of k) (issues s) iid r
      (set_fine_charged fine (set_return_date (Some today) r)) Hr) as Hc.
    rewrite (indicator_false (loan_of k (set_fine_charged _ _))) in Hc
      by (intros [_ ?]; discriminate).
    apply lookup_insert_Some in Hk as [[<- <-]|[Hne Hk]]; simpl.
    + rewrite indicator_true in Hc by done. specialize (wf_issued0 _ _ Hb). lia.
    + rewrite indicator_false in Hc by (intros [? _]; congruence).
      specialize (wf_issued0 _ _ Hk). lia.
  - intros k b0 [[<- <-]|[Hne Hk]]%lookup_insert_Some; simpl; [|eauto].
    specialize (wf_avail0 _ _ Hb). lia.
  - intros k m0 bid0 Hk.
    pose proof (count_records_insert_old (held_by k bid0) (issues s) iid r
      (set_fine_charged fine (set_return_date (Some today) r)) Hr) as Hc.
    rewrite (indicator_false (held_by k bid0 (set_fine_charged _ _))) in Hc
      by (intros (_ & _ & ?); discriminate).
    apply lookup_insert_Some in Hk as [[<- <-]|[Hne Hk]]; simpl.
    + destruct (decide (issue_book_id r = bid0)) as [<-|Hnb].
      * rewrite indicator_true in Hc by done.
        pose proof (occurrences_remove_same _ _ Hin) as Ho.
        rewrite (wf_held0 _ _ (issue_book_id r) Hm) in Ho. lia.
      * rewrite indicator_false in Hc by (intros (_ & ? & _); congruence).
        rewrite occurrences_remove_other by exact Hnb.
        rewrite (wf_held0 _ _ bid0 Hm). lia.
    + rewrite indicator_false in Hc by (intros [? _]; congruence).
      rewrite (wf_held0 _ _ bid0 Hk). lia.
Qed.

Lemma exec_wf c s : wf s → wf (exec c s).2.
Proof.
  destruct c; simpl;
    auto using add_book_wf, update_book_wf, register_member_wf,
               issue_book_wf, return_book_wf.
Qed.

Lemma run_wf cs s : wf s → wf (run cs s).
Proof.
  revert s. induction cs as [|c cs IH]; simpl; intros s W; [exact W|].
  apply IH, exec_wf, W.
Qed.

Lemma reachable_wf s : reachable s → wf s.
Proof. intros [cs <-]. apply run_wf, initial_wf. Qed.

(** ** Facts about the Python helpers *)

Lemma is_digit_not_space a : Py.is_digit a = true → Py.is_space a = false.
Proof.
  unfold Py.is_digit, Py.is_space. intros H.
  apply andb_true_iff in H as [H1 H2].
  apply Nat.leb_le in H1. apply Nat.leb_le in H2.
  apply orb_false_iff. split.
  - apply andb_false_iff. right. apply Nat.leb_gt. lia.
  - apply Nat.eqb_neq. lia.
Qed.

Lemma is_digit_value a : Py.is_digit a = true → 0 ≤ Py.digit_value a.
Proof.
  unfold Py.is_digit, Py.digit_value. intros H.
  apply andb_true_iff in H as [H1 _]. apply Nat.leb_le in H1. lia.
Qed.

Lemma lstrip_digit a l : Py.is_digit a = true → Py.lstrip (a :: l) = a :: l.
Proof. intros H. simpl. by rewrite (is_digit_not_space a H). Qed.

Lemma digits_all_digits l :
  forallb Py.is_digit l = true →
  ∀ acc seen, 0 ≤ acc → (l ≠ [] ∨ seen = true) →
  ∃ v, Py.digits acc seen l = Some v ∧ 0 ≤ v.
Proof.
  induction l as [|a l IH]; simpl; intros Hall acc seen Hacc Hne.
  - destruct Hne as [?| ->]; [done | eauto].
  - apply andb_true_iff in Hall as [Ha Hl]. rewrite Ha.
    apply IH; [exact Hl | | by right].
    pose proof (is_digit_value a Ha). lia.
Qed.

Lemma strip_all_digits l :
  forallb Py.is_digit l = true → Py.strip l = l.
Proof.
  intros Hall. unfold Py.strip.
  assert (Hl : Py.lstrip l = l).
  { destruct l as [|a l]; [done|]. apply lstrip_digit.
    simpl in Hall. by apply andb_true_iff in Hall as [? _]. }
  rewrite Hl.
  assert (Hr : Py.lstrip (rev l) = rev l).
  { destruct (rev l) as [|a l'] eqn:E; [done|]. apply lstrip_digit.
    assert (In a l) as Hin by (apply in_rev; rewrite E; by left).
    by apply (proj1 (forallb_forall _ _) Hall). }
  rewrite Hr. apply rev_involutive.
Qed.

(** On a string accepted by [isdigit], [int] does not raise and yields a
    natural number. *)
Lemma isdigit_int s :
  Py.isdigit s = true → ∃ n, Py.int s = Some n ∧ 0 ≤ n.
Proof.
  unfold Py.isdigit, Py.int. intros H.
  destruct (list_ascii_of_string s) as [|a l] eqn:E; [discriminate|].
  rewrite (strip_all_digits _ H).
  assert (Ha : Py.is_digit a = true).
  { simpl in H. by apply andb_true_iff in H as [? _]. }
  assert (Hd : ∃ v, Py.digits 0 false (a :: l) = Some v ∧ 0 ≤ v).
  { apply digits_all_digits; [exact H | lia | by left]. }
  clear H E. revert Ha Hd.
  destruct a as [[] [] [] [] [] [] [] []]; try discriminate; intros _ Hd; exact Hd.
Qed.

Lemma int_truthy s n : Py.int s = Some n → Py.truthy s = true.
Proof. destruct s; [discriminate | done]. Qed.

(** ** What one call of [issue_book] and [return_book] does *)

(** The store after the statements of [return_book] that follow its guards. *)
Lemma return_book_success issue_id_str today s iid r b m :
  Py.isdigit issue_id_str = true →
  Py.int issue_id_str = Some iid →
  issues s !! iid = Some r →
  return_date r = None →
  books s !! issue_book_id r = Some b →
  members s !! issue_member_id r = Some m →
  let late_days := Z.max 0 (date today - date (due_date r)) in
  let fine := late_days * FINE_PER_DAY in
  let r' := set_fine_charged fine (set_return_date (Some today) r) in
  let m1 := check_and_update_block_status
              (set_outstanding_fine (outstanding_fine m + fine) m) in
  let m' := if Py.contains (issue_book_id r) (borrowed_books m1)
            then set_borrowed_books
                   (Py.remove (issue_book_id r) (borrowed_books m1)) m1
            else m1 in
  return_book issue_id_str today s
  = (MsgReturnRecorded late_days fine (outstanding_fine m + fine)
       :: (if blocked m' then [MsgNowBlocked] else []),
     {| books := <[issue_book_id r :=
                    set_available_copies (available_copies b + 1) b]> (books s);
        members := <[issue_member_id r := m']> (members s);
        issues := <[iid := r']> (issues s);
        next_issue_id := next_issue_id s |}).
Proof.
  intros Hd Hi Hr Hret Hb Hm. unfold return_book.
  rewrite Hd, Hi, Hr, Hret, Hb, Hm. simpl. rewrite days_late_returned.
  destruct (check_and_update_block_status_fields
              (set_outstanding_fine
                 (outstanding_fine m
                  + Z.max 0 (date today - date (due_date r)) * FINE_PER_DAY) m))
    as (_ & _ & _ & Hfine & _ & _).
  simpl in Hfine.
  destruct (Py.contains _ _); simpl; rewrite Hfine; reflexivity.
Qed.

Lemma return_book_returned issue_id_str today s iid r d :
  Py.isdigit issue_id_str = true →
  Py.int issue_id_str = Some iid →
  issues s !! iid = Some r →
  return_date r = Some d →
  return_book issue_id_str today s = ([MsgAlreadyReturned], s).
Proof.
  intros Hd Hi Hr Hret. unfold return_book. by rewrite Hd, Hi, Hr, Hret.
Qed.

Lemma set_blocked_same m : set_blocked (blocked m) m = m.
Proof. by destruct m. Qed.

Lemma recheck_unchanged m :
  blocked m = bool_decide (MAX_FINE_LIMIT ≤ outstanding_fine m) →
  check_and_update_block_status m = m.
Proof.
  intros H. unfold check_and_update_block_status.
  destruct (MAX_FINE_LIMIT <=? outstanding_fine m) eqn:E.
  - apply Z.leb_le in E. rewrite bool_decide_eq_true_2 in H by exact E.
    rewrite <- H. apply set_blocked_same.
  - apply Z.leb_gt in E. rewrite bool_decide_eq_false_2 in H by lia.
    rewrite <- H. apply set_blocked_same.
Qed.

Lemma with_members_same s : with_members (members s) s = s.
Proof. by destruct s. Qed.

(** ** The properties of the ledger *)

(** C1. A successful issue (book and member exist, member not blocked, a copy
    available) in a store reached from the empty one creates exactly one
    record, under the fresh id [next_issue_id] (ids start at 1, every id in use
    is smaller, the counter moves up by one), issued today, due [ISSUE_DAYS]
    later, not returned; the book has one copy less, and not fewer than 0; the
    book id is appended to the member's [borrowed_books]. The record, the book
    and the member are read back from the new store field by field, and every
    other record, book and member is as before. *)
Theorem issue_book_success bid mid today s b m :
  reachable s →
  books s !! bid = Some b →
  members s !! mid = Some m →
  blocked m = false →
  0 < available_copies b →
  let record := {| issue_id := next_issue_id s;
                   issue_book_id := bid;
                   issue_member_id := mid;
                   issue_date := today;
                   due_date := add_days today ISSUE_DAYS;
                   return_date := None;
                   fine_charged := 0 |} in
  let s' := (issue_book bid mid today s).2 in
  (issue_book bid mid today s).1 = [MsgBookIssued record] ∧
  next_issue_id initial = 1 ∧
  1 ≤ next_issue_id s ∧
  (∀ k, is_Some (issues s !! k) → 1 ≤ k < next_issue_id s) ∧
  issues s' = <[next_issue_id s := record]> (issues s) ∧
  size (issues s') = S (size (issues s)) ∧
  next_issue_id s' = next_issue_id s + 1 ∧
  books s' = <[bid := set_available_copies (available_copies b - 1) b]> (books s) ∧
  0 ≤ available_copies b - 1 ∧
  members s'
  = <[mid := set_borrowed_books (borrowed_books m ++ [bid]) m]> (members s) ∧
  issues s !! next_issue_id s = None ∧
  (∃ r', issues s' !! next_issue_id s = Some r' ∧
         issue_id r' = next_issue_id s ∧
         issue_book_id r' = bid ∧ issue_member_id r' = mid ∧
         issue_date r' = today ∧
         dt_day (due_date r') = dt_day today + ISSUE_DAYS ∧
         dt_micros (due_date r') = dt_micros today ∧
         return_date r' = None ∧ fine_charged r' = 0) ∧
  (∀ k, k ≠ next_issue_id s → issues s' !! k = issues s !! k) ∧
  (∃ b', books s' !! bid = Some b' ∧
         available_copies b' = available_copies b - 1 ∧
         0 ≤ available_copies b' ∧
         total_copies b' = total_copies b ∧ book_id b' = book_id b ∧
         title b' = title b ∧ author b' = author b ∧ category b' = category b) ∧
  (∀ k, k ≠ bid → books s' !! k = books s !! k) ∧
  (∃ m', members s' !! mid = Some m' ∧
         borrowed_books m' = borrowed_books m ++ [bid] ∧
         blocked m' = false ∧ outstanding_fine m' = outstanding_fine m ∧
         member_id m' = member_id m ∧ name m' = name m ∧ phone m' = phone m) ∧
  (∀ k, k ≠ mid → members s' !! k = members s !! k).
Proof.
  intros Hreach Hb Hm Hbl Hav. apply reachable_wf in Hreach as W.
  assert (Hsame : check_and_update_block_status m = m).
  { apply recheck_unchanged. by apply (wf_block s W mid). }
  assert (Hids : ∀ k, is_Some (issues s !! k) → 1 ≤ k < next_issue_id s).
  { intros k [r Hr]. by destruct (wf_ids s W k r Hr). }
  assert (Hfresh : issues s !! next_issue_id s = None).
  { destruct (issues s !! next_issue_id s) as [r|] eqn:Hr; [|done].
    specialize (Hids _ (ex_intro _ r Hr)). lia. }
  unfold issue_book. rewrite Hb, Hm, Hsame, Hbl.
  destruct (available_copies b <=? 0) eqn:E; [apply Z.leb_le in E; lia|].
  simpl. rewrite insert_insert_eq.
  split; [reflexivity|]. split; [reflexivity|].
  split; [apply (wf_next s W)|]. split; [exact Hids|].
  split; [reflexivity|]. split; [by apply map_size_insert_None|].
  split; [reflexivity|]. split; [reflexivity|]. split; [lia|].
  split; [reflexivity|]. split; [exact Hfresh|].
  split; [|split; [|split; [|split; [|split]]]].
  - eexists. split; [apply lookup_insert_eq|]. simpl. by repeat split.
  - intros k Hk. by apply lookup_insert_ne.
  - eexists. split; [apply lookup_insert_eq|]. simpl. repeat split; try done. lia.
  - intros k Hk. by apply lookup_insert_ne.
  - eexists. split; [apply lookup_insert_eq|]. simpl. by repeat split.
  - intros k Hk. by apply lookup_insert_ne.
Qed.

Lemma issue_book_success_witness :
  (issue_book "B1" "M1" (day 0) (one_book_one_member "1")).1
  = [MsgBookIssued (mk_IssueRecord 1 "B1" "M1" (day 0) (day 14) None 0)] ∧
  (∃ r', issues (issue_book "B1" "M1" (day 0) (one_book_one_member "1")).2 !! 1
         = Some r' ∧
         issue_date r' = day 0 ∧ dt_day (due_date r') = 14 ∧
         return_date r' = None) ∧
  (∃ b', books (issue_book "B1" "M1" (day 0) (one_book_one_member "1")).2 !! "B1"
         = Some b' ∧ available_copies b' = 0 ∧ total_copies b' = 1) ∧
  (∃ m', members (issue_book "B1" "M1" (day 0) (one_book_one_member "1")).2 !! "M1"
         = Some m' ∧ borrowed_books m' = ["B1"]).
Proof.
  destruct (issue_book_success "B1" "M1" (day 0) (one_book_one_member "1")
              (mk_Book "B1" "Dune" "Herbert" "Fiction" 1 1)
              (mk_Member "M1" "Asha" "555" false 0 []))
    as (Hout & _ & _ & _ & _ & _ & _ & _ & _ & _ & _ & Hrec & _ & Hbook & _
        & Hmem & _).
  - exists (setup "1"). reflexivity.
  - vm_compute. reflexivity.
  - vm_compute. reflexivity.
  - reflexivity.
  - simpl. lia.
  - split; [exact Hout|]. split; [|split].
    + destruct Hrec as (r' & H1 & _ & _ & _ & H2 & H3 & _ & H4 & _).
      exists r'. split; [exact H1|]. split; [exact H2|]. split; [exact H3 | exact H4].
    + destruct Hbook as (b' & H1 & H2 & _ & H3 & _).
      exists b'. split; [exact H1|]. split; [exact H2 | exact H3].
    + destruct Hmem as (m' & H1 & H2 & _).
      exists m'. split; [exact H1 | exact H2].
Defined.

(** C2. A successful return charges no fine when today's calendar date is not
    after the due date's, and [d * FINE_PER_DAY] when it is [d > 0] calendar
    days after it; the fine is written to the record and added once to the
    member's [outstanding_fine], and a further return of the same record adds
    nothing. *)
Theorem return_book_fine issue_id_str today s iid r b m :
  Py.isdigit issue_id_str = true →
  Py.int issue_id_str = Some iid →
  issues s !! iid = Some r →
  return_date r = None →
  books s !! issue_book_id r = Some b →
  members s !! issue_member_id r = Some m →
  let s' := (return_book issue_id_str today s).2 in
  ∃ r' m',
    issues s' !! iid = Some r' ∧
    members s' !! issue_member_id r = Some m' ∧
    return_date r' = Some today ∧
    (date today ≤ date (due_date r) → fine_charged r' = 0) ∧
    (∀ d, 0 < d → d = date today - date (due_date r) →
          fine_charged r' = d * FINE_PER_DAY) ∧
    outstanding_fine m' = outstanding_fine m + fine_charged r' ∧
    (∀ later, return_book issue_id_str later s' = ([MsgAlreadyReturned], s')).
Proof.
  intros Hd Hi Hr Hret Hb Hm.
  rewrite (return_book_success _ today _ _ _ _ _ Hd Hi Hr Hret Hb Hm). simpl.
  set (fine := Z.max 0 (date today - date (due_date r)) * FINE_PER_DAY).
  destruct (check_and_update_block_status_fields
              (set_outstanding_fine (outstanding_fine m + fine) m))
    as (_ & _ & _ & Hfine & _ & _).
  simpl in Hfine.
  eexists _, _. split; [apply lookup_insert_eq|].
  split; [apply lookup_insert_eq|].
  split; [reflexivity|]. simpl.
  split; [intros Hle; unfold fine; lia|].
  split; [intros d Hpos ->; unfold fine; lia|].
  split.
  - destruct (Py.contains _ _); simpl; exact Hfine.
  - intros later. eapply return_book_returned; [exact Hd | exact Hi | | ].
    + simpl. apply lookup_insert_eq.
    + reflexivity.
Qed.

Lemma return_book_fine_witness :
  ∃ r' m',
    issues returned_late !! 1 = Some r' ∧
    members returned_late !! "M1" = Some m' ∧
    fine_charged r' = 6 * FINE_PER_DAY ∧
    outstanding_fine m' = 0 + fine_charged r'.
Proof.
  destruct (return_book_fine "1" (day 20) lent_once 1
              (mk_IssueRecord 1 "B1" "M1" (day 0) (day 14) None 0)
              (mk_Book "B1" "Dune" "Herbert" "Fiction" 1 0)
              (mk_Member "M1" "Asha" "555" false 0 ["B1"]))
    as (r' & m' & H1 & H2 & _ & _ & H5 & H6 & _).
  - reflexivity.
  - reflexivity.
  - vm_compute. reflexivity.
  - reflexivity.
  - vm_compute. reflexivity.
  - vm_compute. reflexivity.
  - exists r', m'. split; [exact H1|]. split; [exact H2|].
    split; [apply H5; [lia | reflexivity] | exact H6].
Defined.

(** C3. Blocking law. [check_and_update_block_status] sets the flag to
    [outstanding_fine >= MAX_FINE_LIMIT], whatever it was; so does, for the
    member concerned and in any store, the fine step of a successful return
    and the recheck at the start of an issue that found its book and member;
    and no operation sets the flag otherwise: in every store reached from the
    empty one every member's flag is the derived one. *)
Theorem blocking_law :
  (∀ m, let m' := check_and_update_block_status m in
        outstanding_fine m' = outstanding_fine m ∧
        (blocked m' = true ↔ MAX_FINE_LIMIT ≤ outstanding_fine m') ∧
        (outstanding_fine m < MAX_FINE_LIMIT → blocked m' = false)) ∧
  (∀ issue_id_str today s iid r b m,
      Py.isdigit issue_id_str = true →
      Py.int issue_id_str = Some iid →
      issues s !! iid = Some r →
      return_date r = None →
      books s !! issue_book_id r = Some b →
      members s !! issue_member_id r = Some m →
      ∃ m', members (return_book issue_id_str today s).2 !! issue_member_id r
            = Some m' ∧
            outstanding_fine m'
            = outstanding_fine m + days_late r today * FINE_PER_DAY ∧
            (blocked m' = true ↔ MAX_FINE_LIMIT ≤ outstanding_fine m')) ∧
  (∀ bid mid today s b m,
      books s !! bid = Some b →
      members s !! mid = Some m →
      ∃ m', members (issue_book bid mid today s).2 !! mid = Some m' ∧
            outstanding_fine m' = outstanding_fine m ∧
            (blocked m' = true ↔ MAX_FINE_LIMIT ≤ outstanding_fine m')) ∧
  (∀ s k m,
      reachable s →
      members s !! k = Some m →
      (blocked m = true ↔ MAX_FINE_LIMIT ≤ outstanding_fine m)).
Proof.
  assert (Hlaw : ∀ m,
    blocked (check_and_update_block_status m) = true ↔
    MAX_FINE_LIMIT ≤ outstanding_fine (check_and_update_block_status m)).
  { intros m.
    destruct (check_and_update_block_status_fields m) as (_ & _ & _ & -> & _ & ->).
    apply bool_decide_eq_true. }
  split; [|split; [|split]].
  - intros m m'. subst m'.
    destruct (check_and_update_block_status_fields m)
      as (_ & _ & _ & Hfine & _ & Hbl).
    split; [exact Hfine|]. split; [apply Hlaw|].
    intros Hlt. rewrite Hbl. apply bool_decide_eq_false_2. lia.
  - intros issue_id_str today s iid r b m Hd Hi Hr Hret Hb Hm.
    rewrite (return_book_success _ today _ _ _ _ _ Hd Hi Hr Hret Hb Hm). simpl.
    assert (Hlate : days_late r today = Z.max 0 (date today - date (due_date r))).
    { unfold days_late. by rewrite Hret. }
    rewrite Hlate.
    set (fine := Z.max 0 (date today - date (due_date r)) * FINE_PER_DAY).
    pose proof (Hlaw (set_outstanding_fine (outstanding_fine m + fine) m)) as Hl.
    destruct (check_and_update_block_status_fields
                (set_outstanding_fine (outstanding_fine m + fine) m))
      as (_ & _ & _ & Hfine & _ & _).
    simpl in Hfine.
    eexists. split; [apply lookup_insert_eq|].
    destruct (Py.contains _ _); simpl; split; assumption.
  - intros bid mid today s b m Hb Hm. unfold issue_book. rewrite Hb, Hm.
    pose proof (Hlaw m) as Hl.
    destruct (check_and_update_block_status_fields m)
      as (_ & _ & _ & Hfine & _ & _).
    destruct (blocked (check_and_update_block_status m)) eqn:Hbl;
      [|destruct (available_copies b <=? 0)]; simpl;
      eexists; (split; [apply lookup_insert_eq|]); simpl;
      rewrite ?Hbl; split; assumption.
  - intros s k m Hreach Hm. apply reachable_wf in Hreach as W.
    rewrite (wf_block s W k m Hm). apply bool_decide_eq_true.
Qed.

Lemma blocking_law_witness :
  (∃ m', members (issue_book "B1" "M1" (day 3) stale_flag).2 !! "M1" = Some m' ∧
         outstanding_fine m' = 0 ∧
         (blocked m' = true ↔ MAX_FINE_LIMIT ≤ outstanding_fine m')) ∧
  (∃ m', members (return_book "2" (day 201) blocked_with_loan).2 !! "M1"
         = Some m' ∧
         outstanding_fine m' = 930 + 186 * FINE_PER_DAY ∧
         (blocked m' = true ↔ MAX_FINE_LIMIT ≤ outstanding_fine m')).
Proof.
  destruct blocking_law as (_ & Hret & Hiss & _). split.
  - apply (Hiss "B1" "M1" (day 3) stale_flag
             (mk_Book "B1" "Dune" "Herbert" "Fiction" 1 1)
             (mk_Member "M1" "Asha" "555" true 0 [])).
    + vm_compute. reflexivity.
    + vm_compute. reflexivity.
  - apply (Hret "2" (day 201) blocked_with_loan 2
             (mk_IssueRecord 2 "B1" "M1" (day 1) (day 15) None 0)
             (mk_Book "B1" "Dune" "Herbert" "Fiction" 2 1)
             (mk_Member "M1" "Asha" "555" true 930 ["B1"])).
    + reflexivity.
    + reflexivity.
    + vm_compute. reflexivity.
    + reflexivity.
    + vm_compute. reflexivity.
    + vm_compute. reflexivity.
Defined.

(** C4. Returning a record whose [return_date] is set reports "Book already
    returned." (AlreadyReturned) and leaves the whole store as it was: the
    record, the book, the member, the other records and the id counter. *)
Theorem return_book_twice issue_id_str today s iid r d :
  Py.isdigit issue_id_str = true →
  Py.int issue_id_str = Some iid →
  issues s !! iid = Some r →
  return_date r = Some d →
  return_book issue_id_str today s = ([MsgAlreadyReturned], s) ∧
  errors (return_book issue_id_str today s).1 = [AlreadyReturned].
Proof.
  intros Hd Hi Hr Hret.
  rewrite (return_book_returned _ today _ _ _ _ Hd Hi Hr Hret). by split.
Qed.

Lemma return_book_twice_witness :
  return_book "1" (day 25) returned_late = ([MsgAlreadyReturned], returned_late).
Proof.
  refine (proj1 (return_book_twice "1" (day 25) returned_late 1
    (mk_IssueRecord 1 "B1" "M1" (day 0) (day 14) (Some (day 20)) 30)
    (day 20) _ _ _ _)).
  - reflexivity.
  - reflexivity.
  - vm_compute. reflexivity.
  - reflexivity.
Defined.

(** C5. The failures of [issue_book], in the order of its guards: a missing
    book, then a missing member (NotFound), then a member whose re-derived
    flag is set (MemberBlocked), then a book without an available copy
    (NoAvailability). None of them creates a record, moves the id counter or
    touches a book; only the member's flag is rewritten by the recheck, and in
    a store reached from the empty one nothing changes at all. *)
Theorem issue_book_failures bid mid today s :
  let out := (issue_book bid mid today s).1 in
  let s' := (issue_book bid mid today s).2 in
  (books s !! bid = None →
     out = [MsgBookNotFound] ∧ errors out = [NotFound] ∧ s' = s) ∧
  (is_Some (books s !! bid) → members s !! mid = None →
     out = [MsgMemberNotFound] ∧ errors out = [NotFound] ∧ s' = s) ∧
  (∀ b m, books s !! bid = Some b → members s !! mid = Some m →
     MAX_FINE_LIMIT ≤ outstanding_fine m →
     out = [MsgMemberBlocked] ∧ errors out = [MemberBlocked] ∧
     s' = with_members (<[mid := set_blocked true m]> (members s)) s ∧
     (reachable s → s' = s)) ∧
  (∀ b m, books s !! bid = Some b → members s !! mid = Some m →
     outstanding_fine m < MAX_FINE_LIMIT →
     available_copies b ≤ 0 →
     out = [MsgNoCopies] ∧ errors out = [NoAvailability] ∧
     s' = with_members (<[mid := set_blocked false m]> (members s)) s ∧
     (reachable s → s' = s)).
Proof.
  assert (Hsame : ∀ m, reachable s → members s !! mid = Some m →
    with_members (<[mid := check_and_update_block_status m]> (members s)) s = s).
  { intros m Hreach Hm. apply reachable_wf in Hreach as W.
    rewrite recheck_unchanged by (by apply (wf_block s W mid)).
    rewrite insert_id by exact Hm. apply with_members_same. }
  simpl. unfold issue_book. split; [|split; [|split]].
  - intros ->. done.
  - intros [b ->] ->. done.
  - intros b m Hb Hm Hfine. rewrite Hb, Hm.
    specialize (Hsame m). revert Hsame.
    unfold check_and_update_block_status.
    destruct (MAX_FINE_LIMIT <=? outstanding_fine m) eqn:E;
      [|apply Z.leb_gt in E; lia].
    simpl. intros Hsame. repeat split; try done. intros Hr. by apply Hsame.
  - intros b m Hb Hm Hfine Hav. rewrite Hb, Hm.
    specialize (Hsame m). revert Hsame.
    unfold check_and_update_block_status.
    destruct (MAX_FINE_LIMIT <=? outstanding_fine m) eqn:E;
      [apply Z.leb_le in E; lia|].
    simpl. destruct (available_copies b <=? 0) eqn:E2;
      [|apply Z.leb_gt in E2; lia].
    simpl. intros Hsame. repeat split; try done. intros Hr. by apply Hsame.
Qed.

Lemma issue_book_failures_witness :
  issue_book "B9" "M9" (day 1) lent_once = ([MsgBookNotFound], lent_once) ∧
  issue_book "B1" "M9" (day 1) lent_once = ([MsgMemberNotFound], lent_once) ∧
  issue_book "B1" "M1" (day 1) lent_once = ([MsgNoCopies], lent_once) ∧
  issue_book "B1" "M1" (day 201) blocked_with_loan
  = ([MsgMemberBlocked], blocked_with_loan).
Proof.
  assert (Hpair : ∀ (p : list message * store) o t, p.1 = o → p.2 = t → p = (o, t)).
  { intros [o' t'] o t. simpl. by intros -> ->. }
  split; [|split; [|split]].
  - destruct (issue_book_failures "B9" "M9" (day 1) lent_once) as (H & _).
    destruct H as (H1 & _ & H2); [vm_compute; reflexivity|].
    by apply Hpair.
  - destruct (issue_book_failures "B1" "M9" (day 1) lent_once) as (_ & H & _).
    destruct H as (H1 & _ & H2);
      [eexists; vm_compute; reflexivity | vm_compute; reflexivity|].
    by apply Hpair.
  - destruct (issue_book_failures "B1" "M1" (day 1) lent_once) as (_ & _ & _ & H).
    destruct (H (mk_Book "B1" "Dune" "Herbert" "Fiction" 1 0)
                (mk_Member "M1" "Asha" "555" false 0 ["B1"]))
      as (H1 & _ & _ & H2);
      [vm_compute; reflexivity | vm_compute; reflexivity
      | simpl; unfold MAX_FINE_LIMIT; lia | simpl; lia |].
    apply Hpair; [exact H1|]. apply H2.
    exists (setup "1" ++ [IssueBook "B1" "M1" (day 0)]). reflexivity.
  - destruct (issue_book_failures "B1" "M1" (day 201) blocked_with_loan)
      as (_ & _ & H & _).
    destruct (H (mk_Book "B1" "Dune" "Herbert" "Fiction" 2 1)
                (mk_Member "M1" "Asha" "555" true 930 ["B1"]))
      as (H1 & _ & _ & H2);
      [vm_compute; reflexivity | vm_compute; reflexivity
      | simpl; unfold MAX_FINE_LIMIT; lia |].
    apply Hpair; [exact H1|]. apply H2.
    exists (setup "2" ++ [IssueBook "B1" "M1" (day 0); IssueBook "B1" "M1" (day 1);
                          ReturnBook "1" (day 200)]). reflexivity.
Defined.

(** ** Copy counts and [borrowed_books] *)

(** What [update_book] does to an existing book, field by field: the text
    fields first, then the total. *)
Lemma update_book_fields bid new_title new_author new_category new_total_str s b :
  books s !! bid = Some b →
  let b1 := mk_Book (book_id b)
              (if Py.truthy new_title then new_title else title b)
              (if Py.truthy new_author then new_author else author b)
              (if Py.truthy new_category then new_category else category b)
              (total_copies b) (available_copies b) in
  let issued := total_copies b - available_copies b in
  let '(out, b') :=
    if Py.truthy new_total_str then
      match Py.int new_total_str with
      | Some n =>
          if n <? issued then ([MsgCannotReduce], b1)
          else ([], set_available_copies (available_copies b + (n - total_copies b))
                      (set_total_copies n b1))
      | None => ([MsgInvalidTotal], b1)
      end
    else ([], b1) in
  update_book bid new_title new_author new_category new_total_str s
  = (out ++ [MsgBookUpdated b'], with_books (<[bid := b']> (books s)) s).
Proof.
  intros Hb. unfold update_book. rewrite Hb. destruct b as [i t a c tot av].
  destruct (Py.truthy new_title), (Py.truthy new_author),
    (Py.truthy new_category), (Py.truthy new_total_str);
    try destruct (Py.int new_total_str) as [n|];
    try destruct (n <? Z.of_nat (String.length bid)); simpl;
    try destruct (n <? tot - av); reflexivity.
Qed.

(** C6. For an existing book, a new total below the number of copies
    currently issued ([total_copies - available_copies]) is refused with
    "Cannot reduce below number of currently issued copies."
    (InvalidOperation) and leaves both counters alone; any other new total is
    stored, [available_copies] moves by the same difference, and the number of
    issued copies stays what it was. *)
Theorem update_book_total bid new_title new_author new_category new_total_str s b n :
  books s !! bid = Some b →
  Py.int new_total_str = Some n →
  let issued := total_copies b - available_copies b in
  let out := (update_book bid new_title new_author new_category new_total_str s).1 in
  let s' := (update_book bid new_title new_author new_category new_total_str s).2 in
  ∃ b', books s' = <[bid := b']> (books s) ∧
    (n < issued →
       errors out = [InvalidOperation] ∧
       out = [MsgCannotReduce; MsgBookUpdated b'] ∧
       total_copies b' = total_copies b ∧
       available_copies b' = available_copies b) ∧
    (issued ≤ n →
       errors out = [] ∧
       out = [MsgBookUpdated b'] ∧
       total_copies b' = n ∧
       available_copies b' = available_copies b + (n - total_copies b) ∧
       total_copies b' - available_copies b' = issued).
Proof.
  intros Hb Hn. simpl.
  pose proof (update_book_fields bid new_title new_author new_category
                new_total_str s b Hb) as H.
  simpl in H. rewrite (int_truthy _ _ Hn), Hn in H.
  destruct (n <? total_copies b - available_copies b) eqn:E; rewrite H; simpl.
  - apply Z.ltb_lt in E. eexists. split; [reflexivity|].
    split; [intros _; done | intros; lia].
  - apply Z.ltb_ge in E. eexists. split; [reflexivity|].
    split; [intros; lia | intros _; simpl; repeat split; lia].
Qed.

Lemma update_book_total_witness :
  ∃ b', books (update_book "B1" "" "" "" "0" lent_twice).2
        = <[ "B1" := b' ]> (books lent_twice) ∧
        total_copies b' = 2 ∧ available_copies b' = 0.
Proof.
  destruct (update_book_total "B1" "" "" "" "0" lent_twice
              (mk_Book "B1" "Dune" "Herbert" "Fiction" 2 0) 0)
    as (b' & H1 & H2 & _).
  - vm_compute. reflexivity.
  - reflexivity.
  - exists b'. split; [exact H1|].
    destruct H2 as (_ & _ & Ht & Ha); [simpl; lia|]. split; assumption.
Defined.

(** In every store reached from the empty one a book has between 0 and
    [total_copies] copies available, the difference being the number of its
    active issue records. *)
Lemma reachable_copy_counts s k b :
  reachable s → books s !! k = Some b →
  0 ≤ available_copies b ≤ total_copies b ∧
  total_copies b - available_copies b
  = Z.of_nat (count_records (loan_of k) (issues s)).
Proof.
  intros Hreach Hb. apply reachable_wf in Hreach as W.
  pose proof (wf_issued s W k b Hb). pose proof (wf_avail s W k b Hb). lia.
Qed.

(** [add_book] stores totals of at least 1 only: [input_int] asks again. *)
Lemma add_book_total_positive bid ttl auth cat total_lines s b :
  books s !! bid = None →
  books (add_book bid ttl auth cat total_lines s).2 !! bid = Some b →
  1 ≤ total_copies b ∧ available_copies b = total_copies b.
Proof.
  intros Hnone. unfold add_book. rewrite Hnone.
  destruct (input_int total_lines 1) as [out [total|]] eqn:Hin; simpl.
  - rewrite lookup_insert_eq. intros [= <-]. simpl.
    apply input_int_minimum in Hin. lia.
  - by rewrite Hnone.
Qed.

(** C7. [update_book] accepts the total "0" for a book of which no copy is
    issued: it reports no error and stores [total_copies = 0], which
    [add_book] would have refused. *)
Theorem update_book_zero_total :
  reachable zero_total ∧
  (update_book "B1" "" "" "" "0" (one_book_one_member "1")).1
  = [MsgBookUpdated (mk_Book "B1" "Dune" "Herbert" "Fiction" 0 0)] ∧
  books zero_total !! "B1"
  = Some (mk_Book "B1" "Dune" "Herbert" "Fiction" 0 0) ∧
  ¬ (∀ s k b, reachable s → books s !! k = Some b → 1 ≤ total_copies b).
Proof.
  assert (Hreach : reachable zero_total).
  { exists (setup "1" ++ [UpdateBook "B1" "" "" "" "0"]). reflexivity. }
  assert (Hb : books zero_total !! "B1"
               = Some (mk_Book "B1" "Dune" "Herbert" "Fiction" 0 0)).
  { vm_compute. reflexivity. }
  split; [exact Hreach|]. split; [vm_compute; reflexivity|].
  split; [exact Hb|].
  intros H. specialize (H _ _ _ Hreach Hb). simpl in H. lia.
Qed.

(** C8 as stated fails: after two issues of the same book to the same member
    the id is twice in [borrowed_books]. *)
Lemma borrowed_books_duplicate :
  reachable lent_twice ∧
  ∃ m, members lent_twice !! "M1" = Some m ∧
       borrowed_books m = ["B1"; "B1"] ∧
       ¬ NoDup (borrowed_books m).
Proof.
  split.
  - exists (setup "2" ++ [IssueBook "B1" "M1" (day 0); IssueBook "B1" "M1" (day 1)]).
    reflexivity.
  - eexists. split; [vm_compute; reflexivity|]. split; [reflexivity|].
    simpl. intros H. apply NoDup_cons in H as [Hnin _].
    apply Hnin. by left.
Qed.

(** C8, amended. In every store reached from the empty one, [borrowed_books]
    is the multiset of the books the member holds: a book id occurs in it as
    many times as the member has active issue records of that book. *)
Theorem borrowed_books_multiset s k m bid :
  reachable s →
  members s !! k = Some m →
  occurrences bid (borrowed_books m) = count_records (held_by k bid) (issues s).
Proof.
  intros Hreach Hm. apply reachable_wf in Hreach as W.
  by apply (wf_held s W).
Qed.

Lemma borrowed_books_multiset_witness :
  occurrences "B1" ["B1"; "B1"] = count_records (held_by "M1" "B1") (issues lent_twice).
Proof.
  apply (borrowed_books_multiset lent_twice "M1"
           (mk_Member "M1" "Asha" "555" false 0 ["B1"; "B1"]) "B1").
  - exists (setup "2" ++ [IssueBook "B1" "M1" (day 0); IssueBook "B1" "M1" (day 1)]).
    reflexivity.
  - vm_compute. reflexivity.
Defined.

(** ** Return and the blocked flag; partial updates *)

(** The outcomes of [return_book] for a numeric issue id, guard by guard. *)
Lemma return_book_outcomes issue_id_str today s :
  Py.isdigit issue_id_str = true →
  let out := (return_book issue_id_str today s).1 in
  (out = [MsgIssueNotFound] ∧ (return_book issue_id_str today s).2 = s) ∨
  (out = [MsgAlreadyReturned] ∧ (return_book issue_id_str today s).2 = s) ∨
  (out = [MsgRecordMissing] ∧ (return_book issue_id_str today s).2 = s) ∨
  (∃ late_days fine outstanding,
      out = [MsgReturnRecorded late_days fine outstanding] ∨
      out = [MsgReturnRecorded late_days fine outstanding; MsgNowBlocked]).
Proof.
  intros Hd. destruct (isdigit_int _ Hd) as (iid & Hi & _).
  destruct (issues s !! iid) as [r|] eqn:Hr.
  - destruct (return_date r) as [d|] eqn:Hret.
    + right; left. by rewrite (return_book_returned _ today _ _ _ _ Hd Hi Hr Hret).
    + destruct (books s !! issue_book_id r) as [b|] eqn:Hb;
        [destruct (members s !! issue_member_id r) as [m|] eqn:Hm|].
      * do 3 right.
        rewrite (return_book_success _ today _ _ _ _ _ Hd Hi Hr Hret Hb Hm). simpl.
        eexists _, _, _.
        match goal with |- context [if ?c then [MsgNowBlocked] else []] =>
          destruct c end; [by right | by left].
      * right; right; left. unfold return_book.
        by rewrite Hd, Hi, Hr, Hret, Hb, Hm.
      * right; right; left. unfold return_book.
        by rewrite Hd, Hi, Hr, Hret, Hb.
  - left. unfold return_book. by rewrite Hd, Hi, Hr.
Qed.

(** C9. An active record whose book and member exist is returned whatever the
    member's blocked flag: no error is reported, the record gets its return
    date, and the fine is added to the member's [outstanding_fine], which
    grows when the return is late, for a blocked member too. The only errors
    [return_book] reports for an issue id are NotFound, AlreadyReturned and
    DataIntegrity. *)
Theorem return_book_ignores_block issue_id_str today s iid r b m :
  Py.isdigit issue_id_str = true →
  Py.int issue_id_str = Some iid →
  issues s !! iid = Some r →
  return_date r = None →
  books s !! issue_book_id r = Some b →
  members s !! issue_member_id r = Some m →
  let out := (return_book issue_id_str today s).1 in
  let s' := (return_book issue_id_str today s).2 in
  errors out = [] ∧
  (∃ tail, out = MsgReturnRecorded (days_late r today)
                   (days_late r today * FINE_PER_DAY)
                   (outstanding_fine m + days_late r today * FINE_PER_DAY)
                 :: tail) ∧
  (∃ r' m',
      issues s' !! iid = Some r' ∧ return_date r' = Some today ∧
      members s' !! issue_member_id r = Some m' ∧
      outstanding_fine m'
      = outstanding_fine m + days_late r today * FINE_PER_DAY ∧
      outstanding_fine m ≤ outstanding_fine m' ∧
      (date (due_date r) < date today →
       outstanding_fine m < outstanding_fine m')) ∧
  (∀ any_id any_day any_store e,
      Py.isdigit any_id = true →
      e ∈ errors (return_book any_id any_day any_store).1 →
      e ∈ [NotFound; AlreadyReturned; DataIntegrity]).
Proof.
  intros Hd Hi Hr Hret Hb Hm.
  assert (Hlate : days_late r today = Z.max 0 (date today - date (due_date r))).
  { unfold days_late. by rewrite Hret. }
  rewrite (return_book_success _ today _ _ _ _ _ Hd Hi Hr Hret Hb Hm).
  simpl. rewrite Hlate.
  set (fine := Z.max 0 (date today - date (due_date r)) * FINE_PER_DAY).
  destruct (check_and_update_block_status_fields
              (set_outstanding_fine (outstanding_fine m + fine) m))
    as (_ & _ & _ & Hfine & _ & _).
  simpl in Hfine.
  set (m' := if Py.contains _ _ then _ else _).
  assert (Hm' : outstanding_fine m' = outstanding_fine m + fine).
  { subst m'. destruct (Py.contains _ _); simpl; exact Hfine. }
  split; [by destruct (blocked m')|].
  split; [by eexists|].
  split.
  - eexists _, m'. split; [apply lookup_insert_eq|]. split; [reflexivity|].
    split; [apply lookup_insert_eq|]. split; [exact Hm'|].
    rewrite Hm'. unfold fine, FINE_PER_DAY. split; [lia | intros; lia].
  - intros any_id any_day any_store e Hdigit.
    destruct (return_book_outcomes any_id any_day any_store Hdigit)
      as [[-> _]|[[-> _]|[[-> _]|(l & f & o & [-> | ->])]]];
      simpl; rewrite !elem_of_cons, !elem_of_nil; tauto.
Qed.

Lemma return_book_ignores_block_witness :
  ∃ m m', members blocked_with_loan !! "M1" = Some m ∧ blocked m = true ∧
          members (return_book "2" (day 201) blocked_with_loan).2 !! "M1"
          = Some m' ∧
          outstanding_fine m < outstanding_fine m'.
Proof.
  destruct (return_book_ignores_block "2" (day 201) blocked_with_loan 2
              (mk_IssueRecord 2 "B1" "M1" (day 1) (day 15) None 0)
              (mk_Book "B1" "Dune" "Herbert" "Fiction" 2 1)
              (mk_Member "M1" "Asha" "555" true 930 ["B1"]))
    as (_ & _ & (r' & m' & _ & _ & H3 & _ & _ & H6) & _).
  - reflexivity.
  - reflexivity.
  - vm_compute. reflexivity.
  - reflexivity.
  - vm_compute. reflexivity.
  - vm_compute. reflexivity.
  - exists (mk_Member "M1" "Asha" "555" true 930 ["B1"]), m'.
    split; [vm_compute; reflexivity|]. split; [reflexivity|].
    split; [exact H3|]. apply H6. simpl. lia.
Defined.

(** C10. [update_book] is not atomic: when the new total is refused, because it
    is below the issued count or is not an integer, the call reports that
    error and still stores every non-empty title, author and category given
    with it; only the two counters keep their values. *)
Theorem update_book_not_atomic bid new_title new_author new_category new_total_str s b :
  books s !! bid = Some b →
  Py.truthy new_total_str = true →
  (Py.int new_total_str = None ∨
   ∃ n, Py.int new_total_str = Some n ∧
        n < total_copies b - available_copies b) →
  let out := (update_book bid new_title new_author new_category new_total_str s).1 in
  let s' := (update_book bid new_title new_author new_category new_total_str s).2 in
  let b' := mk_Book (book_id b)
              (if Py.truthy new_title then new_title else title b)
              (if Py.truthy new_author then new_author else author b)
              (if Py.truthy new_category then new_category else category b)
              (total_copies b) (available_copies b) in
  books s' = <[bid := b']> (books s) ∧
  (Py.int new_total_str = None →
     out = [MsgInvalidTotal; MsgBookUpdated b'] ∧ errors out = [InvalidArgument]) ∧
  (is_Some (Py.int new_total_str) →
     out = [MsgCannotReduce; MsgBookUpdated b'] ∧ errors out = [InvalidOperation]) ∧
  (Py.truthy new_title = true → new_title ≠ title b → books s' ≠ books s).
Proof.
  intros Hb Ht Hbad. simpl.
  pose proof (update_book_fields bid new_title new_author new_category
                new_total_str s b Hb) as H.
  simpl in H. rewrite Ht in H.
  set (b' := mk_Book _ _ _ _ _ _) in *.
  assert (Hs : books (update_book bid new_title new_author new_category
                        new_total_str s).2 = <[bid := b']> (books s)).
  { destruct Hbad as [Hn|(n & Hn & Hlt)]; rewrite Hn in H.
    - by rewrite H.
    - apply Z.ltb_lt in Hlt. rewrite Hlt in H. by rewrite H. }
  split; [exact Hs|]. split; [|split].
  - intros Hn. rewrite Hn in H. by rewrite H.
  - intros [n Hn]. destruct Hbad as [Hn'|(n' & Hn' & Hlt)]; [congruence|].
    rewrite Hn' in H. apply Z.ltb_lt in Hlt. rewrite Hlt in H. by rewrite H.
  - intros Htt Hne Heq. rewrite Hs in Heq.
    assert (Hl : <[bid := b']> (books s) !! bid = Some b') by apply lookup_insert_eq.
    rewrite Heq, Hb in Hl. injection Hl as Hl.
    apply Hne. subst b'. rewrite Htt in Hl. by rewrite Hl.
Qed.

Lemma update_book_not_atomic_witness :
  (update_book "B1" "Dune II" "" "" "x" lent_twice).1
  = [MsgInvalidTotal;
     MsgBookUpdated (mk_Book "B1" "Dune II" "Herbert" "Fiction" 2 0)] ∧
  (update_book "B1" "Dune II" "" "" "0" lent_twice).1
  = [MsgCannotReduce;
     MsgBookUpdated (mk_Book "B1" "Dune II" "Herbert" "Fiction" 2 0)] ∧
  books (update_book "B1" "Dune II" "" "" "0" lent_twice).2 !! "B1"
  = Some (mk_Book "B1" "Dune II" "Herbert" "Fiction" 2 0).
Proof.
  split; [|split].
  - destruct (update_book_not_atomic "B1" "Dune II" "" "" "x" lent_twice
                (mk_Book "B1" "Dune" "Herbert" "Fiction" 2 0))
      as (_ & H & _).
    + vm_compute. reflexivity.
    + reflexivity.
    + left. reflexivity.
    + apply H. reflexivity.
  - destruct (update_book_not_atomic "B1" "Dune II" "" "" "0" lent_twice
                (mk_Book "B1" "Dune" "Herbert" "Fiction" 2 0))
      as (_ & _ & H & _).
    + vm_compute. reflexivity.
    + reflexivity.
    + right. exists 0. split; [reflexivity | simpl; lia].
    + apply H. by exists 0.
  - destruct (update_book_not_atomic "B1" "Dune II" "" "" "0" lent_twice
                (mk_Book "B1" "Dune" "Herbert" "Fiction" 2 0))
      as (H & _).
    + vm_compute. reflexivity.
    + reflexivity.
    + right. exists 0. split; [reflexivity | simpl; lia].
    + rewrite H. apply lookup_insert_eq.
Defined.

(** * Further properties of the program *)

(** ** Every operation as a step *)

Lemma exec_step c s : wf s → step s (exec c s).2.
Proof.
  intros W. destruct c as [bid ttl auth cat total_lines | bid nt na nc ns
                          | mid nm ph | bid mid today | issue_id_str today]; simpl.
  - unfold add_book. destruct (books s !! bid) eqn:Hb; [constructor|].
    destruct (input_int total_lines 1) as [out [total|]] eqn:Hin; [|constructor].
    apply input_int_minimum in Hin. simpl. by apply step_add.
  - destruct (books s !! bid) as [b|] eqn:Hb.
    + destruct (update_book_result bid nt na nc ns s b Hb)
        as (out & b' & -> & Hid & Hiss & _).
      simpl. by eapply step_update.
    + unfold update_book. rewrite Hb. constructor.
  - unfold register_member. destruct (members s !! mid) eqn:Hm; [constructor|].
    simpl. by apply step_register.
  - unfold issue_book.
    destruct (books s !! bid) as [b|] eqn:Hb; [|constructor].
    destruct (members s !! mid) as [m|] eqn:Hm; [|constructor].
    rewrite (recheck_unchanged m) by (by apply (wf_block s W mid)).
    rewrite (insert_id (members s) mid m Hm), with_members_same.
    destruct (blocked m) eqn:Hbl; [constructor|].
    destruct (available_copies b <=? 0) eqn:Hav; [constructor|].
    apply Z.leb_gt in Hav. simpl.
    apply step_issue; try done.
    destruct (issues s !! next_issue_id s) as [r|] eqn:Hr; [|done].
    destruct (wf_ids s W _ _ Hr). lia.
  - destruct (Py.isdigit issue_id_str) eqn:Hd;
      [|unfold return_book; rewrite Hd; constructor].
    destruct (isdigit_int _ Hd) as (iid & Hi & _).
    destruct (issues s !! iid) as [r|] eqn:Hr;
      [|unfold return_book; rewrite Hd, Hi, Hr; constructor].
    destruct (return_date r) as [d|] eqn:Hret;
      [rewrite (return_book_returned _ today _ _ _ _ Hd Hi Hr Hret); constructor|].
    destruct (wf_refs s W _ _ Hr) as [[b Hb] [m Hm]].
    rewrite (return_book_success _ today _ _ _ _ _ Hd Hi Hr Hret Hb Hm). simpl.
    assert (Hin : issue_book_id r ∈ borrowed_books m).
    { apply occurrences_pos. rewrite (wf_held s W _ _ (issue_book_id r) Hm).
      apply (count_records_pos _ _ iid r Hr). by repeat split. }
    destruct (check_and_update_block_status_fields
                (set_outstanding_fine
                   (outstanding_fine m
                    + Z.max 0 (date today - date (due_date r)) * FINE_PER_DAY) m))
      as (_ & _ & _ & _ & Hbor & _).
    simpl in Hbor. unfold Py.contains. rewrite Hbor.
    rewrite bool_decide_eq_true_2 by exact Hin.
    assert (Hlate : days_late r today = Z.max 0 (date today - date (due_date r))).
    { unfold days_late. by rewrite Hret. }
    rewrite <- Hlate.
    exact (step_return s iid r b m today Hr Hret Hb Hm Hin).
Qed.

Lemma run_steps (R : store → store → Prop) :
  (∀ s, R s s) →
  (∀ a b c, R a b → R b c → R a c) →
  (∀ s s', wf s → step s s' → R s s') →
  ∀ cs s, wf s → R s (run cs s).
Proof.
  intros Hrefl Htrans Hstep cs. induction cs as [|c cs IH]; simpl; intros s W.
  - apply Hrefl.
  - apply (Htrans _ (exec c s).2).
    + apply Hstep; [exact W | by apply exec_step].
    + apply IH. by apply exec_wf.
Qed.

Lemma reachable_invariant (P : store → Prop) :
  P initial →
  (∀ s s', wf s → P s → step s s' → P s') →
  ∀ s, reachable s → P s.
Proof.
  intros Hinit Hstep s [cs <-].
  assert (H : ∀ s0, wf s0 → P s0 → P (run cs s0)).
  { induction cs as [|c cs IH]; simpl; intros s0 W HP; [exact HP|].
    apply IH; [by apply exec_wf|].
    apply (Hstep s0); [exact W | exact HP | by apply exec_step]. }
  apply H; [apply initial_wf | exact Hinit].
Qed.

Lemma days_late_nonneg r on_date : 0 ≤ days_late r on_date.
Proof. unfold days_late. lia. Qed.

(** ** What a run keeps *)

Lemma run_member_kept cs s : wf s → member_kept s (run cs s).
Proof.
  apply run_steps.
  - intros s0 k m Hm. eauto 10 with lia.
  - intros a b c Hab Hbc k m Hm.
    destruct (Hab k m Hm) as (m1 & H1 & Ha1 & Ha2 & Ha3 & Ha4).
    destruct (Hbc k m1 H1) as (m2 & H2 & Hb1 & Hb2 & Hb3 & Hb4).
    exists m2. repeat split; try congruence. lia.
  - intros s0 s' W Hstep k m0 Hm0. destruct Hstep; simpl.
    + eauto 10 with lia.
    + eauto 10 with lia.
    + eauto 10 with lia.
    + destruct (decide (mid = k)) as [->|Hne]; [congruence|].
      rewrite lookup_insert_ne by exact Hne. eauto 10 with lia.
    + destruct (decide (mid = k)) as [->|Hne].
      * rewrite lookup_insert_eq. eexists. split; [reflexivity|].
        assert (m0 = m) as -> by congruence. simpl. repeat split; lia.
      * rewrite lookup_insert_ne by exact Hne. eauto 10 with lia.
    + destruct (decide (issue_member_id r = k)) as [<-|Hne].
      * rewrite lookup_insert_eq. eexists. split; [reflexivity|].
        assert (m0 = m) as -> by congruence.
        destruct (check_and_update_block_status_fields
                    (set_outstanding_fine
                       (outstanding_fine m + days_late r today * FINE_PER_DAY) m))
          as (Hid & Hnm & Hph & Hfine & _ & _).
        simpl in *. pose proof (days_late_nonneg r today).
        unfold FINE_PER_DAY in *. repeat split; try done. lia.
      * rewrite lookup_insert_ne by exact Hne. eauto 10 with lia.
Qed.

Lemma run_book_kept cs s : wf s → book_kept s (run cs s).
Proof.
  apply run_steps.
  - intros s0 k b Hb. eauto.
  - intros a b c Hab Hbc k b0 Hb0.
    destruct (Hab k b0 Hb0) as (b1 & H1 & Ha1).
    destruct (Hbc k b1 H1) as (b2 & H2 & Hb1).
    exists b2. split; congruence.
  - intros s0 s' W Hstep k b0 Hb0. destruct Hstep; simpl; eauto.
    + destruct (decide (bid = k)) as [->|Hne]; [congruence|].
      rewrite lookup_insert_ne by exact Hne. eauto.
    + destruct (decide (bid = k)) as [->|Hne].
      * rewrite lookup_insert_eq. eexists. split; [reflexivity|]. congruence.
      * rewrite lookup_insert_ne by exact Hne. eauto.
    + destruct (decide (bid = k)) as [->|Hne].
      * rewrite lookup_insert_eq. eexists. split; [reflexivity|].
        assert (b0 = b) as -> by congruence. done.
      * rewrite lookup_insert_ne by exact Hne. eauto.
    + destruct (decide (issue_book_id r = k)) as [<-|Hne].
      * rewrite lookup_insert_eq. eexists. split; [reflexivity|].
        assert (b0 = b) as -> by congruence. done.
      * rewrite lookup_insert_ne by exact Hne. eauto.
Qed.

Lemma run_record_kept cs s : wf s → record_kept s (run cs s).
Proof.
  apply run_steps.
  - intros s0. split; [lia|]. intros k r Hr. eauto 10.
  - intros a b c [Hn1 Hab] [Hn2 Hbc]. split; [lia|]. intros k r Hr.
    destruct (Hab k r Hr) as (r1 & H1 & Ha1 & Ha2 & Ha3 & Ha4 & Ha5 & Hf1).
    destruct (Hbc k r1 H1) as (r2 & H2 & Hb1 & Hb2 & Hb3 & Hb4 & Hb5 & Hf2).
    exists r2. repeat split; try congruence.
    intros Hret. rewrite <- (Hf1 Hret). apply Hf2. by rewrite (Hf1 Hret).
  - intros s0 s' W Hstep. unfold record_kept.
    destruct Hstep; simpl; (split; [lia|]); intros k r0 Hr0; eauto 10.
    + destruct (decide (next_issue_id s0 = k)) as [<-|Hne]; [congruence|].
      rewrite lookup_insert_ne by exact Hne. eauto 10.
    + destruct (decide (iid = k)) as [->|Hne].
      * rewrite lookup_insert_eq. eexists. split; [reflexivity|].
        assert (r0 = r) as -> by congruence. simpl.
        repeat split; try done. intros [d Hd]. congruence.
      * rewrite lookup_insert_ne by exact Hne. eauto 10.
Qed.

(** X1. No operation deletes or renames anything: along any run from a
    reachable store every book stays in the catalogue under its id, every
    member stays registered with the same id, name and phone, every issue
    record stays in the ledger with the same id, book, member, issue date and
    due date, and the issue id counter never goes down. *)
Theorem run_keeps_entries s cs :
  reachable s →
  let s' := run cs s in
  (∀ k b, books s !! k = Some b →
     ∃ b', books s' !! k = Some b' ∧ book_id b' = book_id b) ∧
  (∀ k m, members s !! k = Some m →
     ∃ m', members s' !! k = Some m' ∧ member_id m' = member_id m ∧
           name m' = name m ∧ phone m' = phone m) ∧
  (∀ k r, issues s !! k = Some r →
     ∃ r', issues s' !! k = Some r' ∧ issue_id r' = issue_id r ∧
           issue_book_id r' = issue_book_id r ∧
           issue_member_id r' = issue_member_id r ∧
           issue_date r' = issue_date r ∧ due_date r' = due_date r) ∧
  next_issue_id s ≤ next_issue_id s'.
Proof.
  intros Hreach. apply reachable_wf in Hreach as W. simpl.
  split; [apply (run_book_kept cs s W)|]. split; [|split].
  - intros k m Hm.
    destruct (run_member_kept cs s W k m Hm) as (m' & ? & ? & ? & ? & _). eauto.
  - intros k r Hr.
    destruct (run_record_kept cs s W) as [_ H].
    destruct (H k r Hr) as (r' & ? & ? & ? & ? & ? & ? & _). eauto 10.
  - by destruct (run_record_kept cs s W).
Qed.

Lemma run_keeps_entries_witness :
  ∃ r', issues returned_late !! 1 = Some r' ∧ issue_id r' = 1 ∧
        issue_book_id r' = "B1" ∧ issue_member_id r' = "M1" ∧
        issue_date r' = day 0 ∧ due_date r' = day 14.
Proof.
  destruct (run_keeps_entries lent_once [ReturnBook "1" (day 20)])
    as (_ & _ & H & _).
  - exists (setup "1" ++ [IssueBook "B1" "M1" (day 0)]). reflexivity.
  - apply (H 1 (mk_IssueRecord 1 "B1" "M1" (day 0) (day 14) None 0)).
    vm_compute. reflexivity.
Defined.

(** X2. A returned record is final: once [return_date] is set, no later
    sequence of operations changes the record, so its return date and the
    fine charged on it stay as they are. *)
Theorem returned_record_is_final s cs k r d :
  reachable s →
  issues s !! k = Some r →
  return_date r = Some d →
  issues (run cs s) !! k = Some r.
Proof.
  intros Hreach Hr Hret. apply reachable_wf in Hreach as W.
  destruct (run_record_kept cs s W) as [_ H].
  destruct (H k r Hr) as (r' & Hr' & _ & _ & _ & _ & _ & Hsame).
  rewrite Hr'. f_equal. apply Hsame. by exists d.
Qed.

Lemma returned_record_is_final_witness :
  issues (run [ReturnBook "1" (day 40); IssueBook "B1" "M1" (day 41)]
              returned_late) !! 1
  = Some (mk_IssueRecord 1 "B1" "M1" (day 0) (day 14) (Some (day 20)) 30).
Proof.
  apply (returned_record_is_final returned_late _ 1 _ (day 20)).
  - exists (setup "1" ++ [IssueBook "B1" "M1" (day 0); ReturnBook "1" (day 20)]).
    reflexivity.
  - vm_compute. reflexivity.
  - reflexivity.
Defined.

(** X3. No operation lowers a fine: along any run from a reachable store a
    member's [outstanding_fine] only grows or stays. *)
Theorem fines_never_decrease s cs k m :
  reachable s →
  members s !! k = Some m →
  ∃ m', members (run cs s) !! k = Some m' ∧
        outstanding_fine m ≤ outstanding_fine m'.
Proof.
  intros Hreach Hm. apply reachable_wf in Hreach as W.
  destruct (run_member_kept cs s W k m Hm) as (m' & ? & _ & _ & _ & ?). eauto.
Qed.

Lemma fines_never_decrease_witness :
  ∃ m', members blocked_with_loan !! "M1" = Some m' ∧ 0 ≤ outstanding_fine m'.
Proof.
  apply (fines_never_decrease lent_twice [ReturnBook "1" (day 200)] "M1"
           (mk_Member "M1" "Asha" "555" false 0 ["B1"; "B1"])).
  - exists (setup "2" ++ [IssueBook "B1" "M1" (day 0); IssueBook "B1" "M1" (day 1)]).
    reflexivity.
  - vm_compute. reflexivity.
Defined.

(** X4. A blocked member stays blocked: once the flag is set in a reachable
    store, after any further operations the flag is still set and an issue to
    that member of any book of the catalogue is refused with "Member is
    BLOCKED due to high outstanding fines.", leaving the store as it is. *)
Theorem blocked_stays_blocked s cs k m bid today :
  reachable s →
  members s !! k = Some m →
  blocked m = true →
  let s' := run cs s in
  (∃ m', members s' !! k = Some m' ∧ blocked m' = true) ∧
  (is_Some (books s' !! bid) →
   issue_book bid k today s' = ([MsgMemberBlocked], s')).
Proof.
  intros Hreach Hm Hbl. apply reachable_wf in Hreach as W. simpl.
  pose proof (run_wf cs s W) as W'.
  destruct (run_member_kept cs s W k m Hm) as (m' & Hm' & _ & _ & _ & Hle).
  assert (Hbl' : blocked m' = true).
  { rewrite (wf_block _ W' k m' Hm'). apply bool_decide_eq_true_2.
    rewrite (wf_block _ W k m Hm) in Hbl. apply bool_decide_eq_true in Hbl. lia. }
  split; [eauto|].
  intros [b Hb]. unfold issue_book. rewrite Hb, Hm'.
  rewrite (recheck_unchanged m') by (by apply (wf_block _ W' k)).
  rewrite Hbl'. by rewrite insert_id, with_members_same.
Qed.

Lemma blocked_stays_blocked_witness :
  issue_book "B1" "M1" (day 300) (run [ReturnBook "2" (day 250)] blocked_with_loan)
  = ([MsgMemberBlocked], run [ReturnBook "2" (day 250)] blocked_with_loan).
Proof.
  refine (proj2 (blocked_stays_blocked blocked_with_loan [ReturnBook "2" (day 250)]
    "M1" (mk_Member "M1" "Asha" "555" true 930 ["B1"]) "B1" (day 300) _ _ _) _).
  - exists (setup "2" ++ [IssueBook "B1" "M1" (day 0); IssueBook "B1" "M1" (day 1);
                          ReturnBook "1" (day 200)]). reflexivity.
  - vm_compute. reflexivity.
  - reflexivity.
  - eexists. vm_compute. reflexivity.
Defined.

(** ** Issue ids, records and the fine ledger *)

Lemma returned_days_late r d on_date :
  return_date r = Some d →
  days_late r on_date = Z.max 0 (date d - date (due_date r)).
Proof. intros H. unfold days_late. by rewrite H. Qed.

Lemma active_days_late r on_date :
  return_date r = None →
  days_late r on_date = Z.max 0 (date on_date - date (due_date r)).
Proof. intros H. unfold days_late. by rewrite H. Qed.

Lemma fines_of_empty mid : fines_of mid ∅ = 0.
Proof. unfold fines_of. by rewrite map_fold_empty. Qed.

Lemma fines_of_insert_new mid iss k r :
  iss !! k = None →
  fines_of mid (<[k:=r]> iss) = fine_term mid r + fines_of mid iss.
Proof.
  intros Hk. unfold fines_of, fine_term.
  rewrite map_fold_insert_L; [done | | exact Hk].
  intros. lia.
Qed.

Lemma fines_of_insert_old mid iss k r0 r :
  iss !! k = Some r0 →
  fines_of mid (<[k:=r]> iss) + fine_term mid r0
  = fine_term mid r + fines_of mid iss.
Proof.
  intros Hk. rewrite <- (insert_delete_eq iss).
  rewrite fines_of_insert_new by apply lookup_delete_eq.
  assert (H : fines_of mid iss = fine_term mid r0 + fines_of mid (delete k iss)).
  { unfold fines_of, fine_term.
    rewrite (map_fold_delete_L _ _ k r0 iss); [done | | exact Hk].
    intros. lia. }
  lia.
Qed.

Lemma fines_of_none mid iss :
  (∀ k r, iss !! k = Some r → issue_member_id r ≠ mid) → fines_of mid iss = 0.
Proof.
  induction iss as [|k r iss Hk IH] using map_ind; intros H.
  - apply fines_of_empty.
  - rewrite fines_of_insert_new by exact Hk. rewrite IH.
    + unfold fine_term. rewrite decide_False; [done|].
      apply (H k). apply lookup_insert_eq.
    + intros i r' Hi. apply (H i).
      rewrite lookup_insert_ne; [exact Hi|]. intros ->. congruence.
Qed.

Lemma reachable_ids_present s k :
  reachable s → 1 ≤ k < next_issue_id s → is_Some (issues s !! k).
Proof.
  intros Hreach. revert k. pattern s. revert s Hreach.
  refine (reachable_invariant _ _ _).
  - simpl. intros k H. lia.
  - intros s s' W IH Hstep k Hk.
    destruct Hstep as [ | bid b Hb Hid Ht Ha | bid b b' Hb Hid Hiss | mid nm ph Hm
                      | bid mid today b m Hb Hm Hbl Hav Hfresh
                      | iid r b m today Hr Hret Hb Hm Hin]; simpl in *;
      try (by apply IH).
    + destruct (decide (next_issue_id s = k)) as [<-|Hne].
      * rewrite lookup_insert_eq. eauto.
      * rewrite lookup_insert_ne by exact Hne. apply IH. lia.
    + destruct (decide (iid = k)) as [<-|Hne].
      * rewrite lookup_insert_eq. eauto.
      * rewrite lookup_insert_ne by exact Hne. by apply IH.
Qed.

(** X5. Issue ids are the numbers from 1 up to the counter, without gaps: in a
    reachable store an id carries a record exactly when it lies between 1 and
    [next_issue_id - 1], and the record stored under an id has that id. *)
Theorem issue_ids_gapless s k :
  reachable s →
  (is_Some (issues s !! k) ↔ 1 ≤ k < next_issue_id s) ∧
  (∀ r, issues s !! k = Some r → issue_id r = k).
Proof.
  intros Hreach. apply reachable_wf in Hreach as W. split; [split|].
  - intros [r Hr]. by destruct (wf_ids s W k r Hr).
  - by apply reachable_ids_present.
  - intros r Hr. by destruct (wf_ids s W k r Hr).
Qed.

Lemma issue_ids_gapless_witness :
  is_Some (issues lent_twice !! 2) ↔ 1 ≤ 2 < next_issue_id lent_twice.
Proof.
  apply (issue_ids_gapless lent_twice 2).
  exists (setup "2" ++ [IssueBook "B1" "M1" (day 0); IssueBook "B1" "M1" (day 1)]).
  reflexivity.
Defined.

(** X6. The stored fine of a record is the one [days_late] gives: in a
    reachable store an active record has [fine_charged = 0], and a returned
    record has [fine_charged = days_late * FINE_PER_DAY], on whatever later
    date [days_late] is asked; every record is due [ISSUE_DAYS] days after its
    issue date. *)
Theorem record_fine_consistent s k r :
  reachable s →
  issues s !! k = Some r →
  due_date r = add_days (issue_date r) ISSUE_DAYS ∧
  (return_date r = None → fine_charged r = 0) ∧
  (is_Some (return_date r) →
   ∀ on_date, fine_charged r = days_late r on_date * FINE_PER_DAY).
Proof.
  intros Hreach Hr. apply reachable_wf in Hreach as W.
  destruct (wf_record s W k r Hr) as (Hdue & _ & Hact).
  split; [exact Hdue|]. split; [exact Hact|].
  revert k r Hr Hdue Hact. pattern s. revert s Hreach W.
  refine (reachable_invariant _ _ _).
  - simpl. intros _ k r Hr. by rewrite lookup_empty in Hr.
  - intros s s' W IH Hstep W' k r0 Hr0 _ _ [d Hd] on_date. specialize (IH W).
    assert (Hold : issues s !! k = Some r0 →
                   fine_charged r0 = days_late r0 on_date * FINE_PER_DAY).
    { intros H. destruct (wf_record s W k r0 H) as (Hdue & _ & Hact).
      apply (IH k r0 H Hdue Hact). by exists d. }
    destruct Hstep; simpl in *; try (by apply Hold).
    + apply lookup_insert_Some in Hr0 as [[<- <-]|[Hne Hk]]; [discriminate|].
      by apply Hold.
    + apply lookup_insert_Some in Hr0 as [[<- <-]|[Hne Hk]]; [|by apply Hold].
      simpl. rewrite (returned_days_late _ today on_date) by reflexivity.
      simpl. by rewrite (active_days_late r today).
Qed.

Lemma record_fine_consistent_witness :
  30 = days_late (mk_IssueRecord 1 "B1" "M1" (day 0) (day 14) (Some (day 20)) 30)
                 (day 99) * FINE_PER_DAY.
Proof.
  refine (proj2 (proj2 (record_fine_consistent returned_late 1
    (mk_IssueRecord 1 "B1" "M1" (day 0) (day 14) (Some (day 20)) 30) _ _)) _
    (day 99)).
  - exists (setup "1" ++ [IssueBook "B1" "M1" (day 0); ReturnBook "1" (day 20)]).
    reflexivity.
  - vm_compute. reflexivity.
  - by eexists.
Defined.

(** X7. The fine ledger balances: in a reachable store a member's
    [outstanding_fine] is the sum of [fine_charged] over the issue records of
    that member. *)
Theorem outstanding_fine_is_sum_of_fines s k m :
  reachable s →
  members s !! k = Some m →
  outstanding_fine m = fines_of k (issues s).
Proof.
  intros Hreach. revert k m. pattern s. revert s Hreach.
  refine (reachable_invariant _ _ _).
  - simpl. intros k m Hm. by rewrite lookup_empty in Hm.
  - intros s s' W IH Hstep k m0 Hm0.
    destruct Hstep as [ | bid b Hb Hid Ht Ha | bid b b' Hb Hid Hiss | mid nm ph Hm
                      | bid mid today b m Hb Hm Hbl Hav Hfresh
                      | iid r b m today Hr Hret Hb Hm Hin]; simpl in *.
    + by apply IH.
    + by apply IH.
    + by apply IH.
    + apply lookup_insert_Some in Hm0 as [[<- <-]|[Hne Hk]]; [|by apply IH].
      simpl. symmetry. apply fines_of_none. intros i r Hi Heq.
      destruct (wf_refs s W i r Hi) as [_ [m' Hm']]. congruence.
    + rewrite fines_of_insert_new by exact Hfresh.
      unfold fine_term. simpl.
      assert (Hz : (if decide (mid = k) then 0 else 0) = 0) by (by destruct (decide _)).
      rewrite Hz.
      apply lookup_insert_Some in Hm0 as [[<- <-]|[Hne Hk]]; simpl.
      * rewrite (IH mid m Hm). lia.
      * rewrite (IH k m0 Hk). lia.
    + pose proof (fines_of_insert_old k (issues s) iid r
        (set_fine_charged (days_late r today * FINE_PER_DAY)
           (set_return_date (Some today) r)) Hr) as Hsum.
      destruct (wf_record s W iid r Hr) as (_ & _ & Hact).
      unfold fine_term in Hsum. simpl in Hsum. rewrite (Hact Hret) in Hsum.
      assert (Hz : (if decide (issue_member_id r = k) then 0 else 0) = 0)
        by (by destruct (decide _)).
      rewrite Hz in Hsum.
      destruct (check_and_update_block_status_fields
                  (set_outstanding_fine
                     (outstanding_fine m + days_late r today * FINE_PER_DAY) m))
        as (_ & _ & _ & Hfine & _ & _).
      simpl in Hfine.
      apply lookup_insert_Some in Hm0 as [[Heq <-]|[Hne Hk]]; simpl.
      * subst k. rewrite decide_True in Hsum by done. rewrite Hfine.
        rewrite (IH _ m Hm). lia.
      * rewrite decide_False in Hsum by done. rewrite (IH k m0 Hk). lia.
Qed.

Lemma outstanding_fine_is_sum_of_fines_witness :
  930 = fines_of "M1" (issues blocked_with_loan).
Proof.
  apply (outstanding_fine_is_sum_of_fines blocked_with_loan "M1"
           (mk_Member "M1" "Asha" "555" true 930 ["B1"])).
  - exists (setup "2" ++ [IssueBook "B1" "M1" (day 0); IssueBook "B1" "M1" (day 1);
                          ReturnBook "1" (day 200)]). reflexivity.
  - vm_compute. reflexivity.
Defined.

(** ** The reports *)

Lemma omap_lookup_ext (m1 m2 : gmap Z IssueRecord) (l : list Z) :
  (∀ k, k ∈ l → m1 !! k = m2 !! k) →
  omap (λ k, m1 !! k) l = omap (λ k, m2 !! k) l.
Proof.
  induction l as [|k l IH]; intros H; [done|]. csimpl.
  rewrite (H k) by (by left).
  rewrite IH by (intros k' Hk'; apply H; by right). done.
Qed.

(** Counting the records of a map whose keys lie in [lo, lo + n) is counting
    in the list of its values taken in key order. *)
Lemma count_records_seqZ (P : IssueRecord → Prop) `{!∀ r, Decision (P r)}
    (n : nat) (lo : Z) (m : gmap Z IssueRecord) :
  (∀ k, is_Some (m !! k) → lo ≤ k < lo + Z.of_nat n) →
  count_records P m
  = length (filter P (omap (λ k, m !! k) (seqZ lo (Z.of_nat n)))).
Proof.
  revert m. induction n as [|n IH]; intros m Hkeys.
  - rewrite seqZ_nil by lia. simpl. apply count_records_none.
    intros k r Hk. specialize (Hkeys k (ex_intro _ r Hk)). lia.
  - rewrite seqZ_S, omap_app, filter_app, length_app.
    set (k := lo + Z.of_nat n).
    assert (Hext : omap (λ i, m !! i) (seqZ lo (Z.of_nat n))
                   = omap (λ i, delete k m !! i) (seqZ lo (Z.of_nat n))).
    { apply omap_lookup_ext. intros i Hi. apply elem_of_seqZ in Hi.
      rewrite lookup_delete_ne; [done | subst k; lia]. }
    rewrite Hext, <- (IH (delete k m)).
    + csimpl. destruct (m !! k) as [r|] eqn:Hk.
      * rewrite <- (insert_delete_id m k r Hk) at 1.
        rewrite count_records_insert_new by apply lookup_delete_eq.
        f_equal. unfold indicator. rewrite filter_cons, filter_nil.
        by destruct (decide (P r)).
      * rewrite (delete_id m k Hk). simpl. lia.
    + intros i [r Hi]. apply lookup_delete_Some in Hi as [Hne Hi].
      specialize (Hkeys i (ex_intro _ r Hi)). subst k. lia.
Qed.

Lemma issue_values_count (P : IssueRecord → Prop) `{!∀ r, Decision (P r)} s :
  wf s → count_records P (issues s) = length (filter P (issue_values s)).
Proof.
  intros W. unfold issue_values.
  pose proof (wf_next s W) as Hn.
  replace (next_issue_id s - 1) with (Z.of_nat (Z.to_nat (next_issue_id s - 1)))
    by lia.
  apply count_records_seqZ. intros k [r Hr].
  destruct (wf_ids s W k r Hr). lia.
Qed.

Lemma issue_values_elem s r :
  wf s → r ∈ issue_values s ↔ ∃ k, issues s !! k = Some r.
Proof.
  intros W. unfold issue_values. rewrite list_elem_of_omap. split.
  - intros (k & _ & Hk). eauto.
  - intros (k & Hk). exists k. split; [|exact Hk].
    apply elem_of_seqZ. destruct (wf_ids s W k r Hk). lia.
Qed.

Lemma issue_values_ids s :
  reachable s → issue_id <$> issue_values s = seqZ 1 (next_issue_id s - 1).
Proof.
  intros Hreach. apply reachable_wf in Hreach as W. unfold issue_values.
  assert (H : ∀ l : list Z,
    (∀ k, k ∈ l → 1 ≤ k < next_issue_id s) →
    issue_id <$> omap (λ k, issues s !! k) l = l).
  { induction l as [|k l IH]; intros Hl; [done|]. csimpl.
    destruct (reachable_ids_present s k Hreach (Hl k ltac:(by left))) as [r Hr].
    rewrite Hr. csimpl. destruct (wf_ids s W k r Hr) as [_ ->].
    f_equal. apply IH. intros k' Hk'. apply Hl. by right. }
  apply H. intros k Hk. apply elem_of_seqZ in Hk. lia.
Qed.

(** X9. The active-issues report agrees with the counters: for a reachable
    store [view_active_issues] prints "No active issues." or one line for
    each record without a return date, no record twice; the number of lines
    of a book is that book's [total_copies - available_copies], and the number
    of lines of a book and a member is the number of times the book id occurs
    in the member's [borrowed_books]. *)
Theorem active_issues_match_counters s :
  reachable s →
  ∃ rs, view_active_issues s
        = match rs with [] => [LineNoActiveIssues] | _ => LineRecord <$> rs end ∧
        NoDup rs ∧
        (∀ r, r ∈ rs ↔ ∃ k, issues s !! k = Some r ∧ return_date r = None) ∧
        (∀ k b, books s !! k = Some b →
           total_copies b - available_copies b
           = Z.of_nat (length (filter (λ r, issue_book_id r = k) rs))) ∧
        (∀ k m bid, members s !! k = Some m →
           occurrences bid (borrowed_books m)
           = length (filter (λ r, issue_member_id r = k ∧ issue_book_id r = bid) rs)).
Proof.
  intros Hreach. apply reachable_wf in Hreach as W.
  exists (filter (λ r, return_date r = None) (issue_values s)).
  split; [reflexivity|]. split; [|split; [|split]].
  - apply NoDup_filter. apply (NoDup_fmap_1 issue_id).
    rewrite issue_values_ids by exact Hreach. apply NoDup_seqZ.
  - intros r. rewrite list_elem_of_filter, issue_values_elem by exact W.
    split.
    + intros [Hret [k Hk]]. eauto.
    + intros (k & Hk & Hret). eauto.
  - intros k b Hb. rewrite (wf_issued s W k b Hb). f_equal.
    rewrite (issue_values_count (loan_of k) s W), list_filter_filter.
    apply (f_equal length). apply list_filter_iff.
    intros r. unfold loan_of, active. tauto.
  - intros k m bid Hm. rewrite (wf_held s W k m bid Hm).
    rewrite (issue_values_count (held_by k bid) s W), list_filter_filter.
    apply (f_equal length). apply list_filter_iff.
    intros r. unfold held_by, active. tauto.
Qed.

Lemma active_issues_match_counters_witness :
  ∃ rs, view_active_issues blocked_with_loan
        = match rs with [] => [LineNoActiveIssues] | _ => LineRecord <$> rs end ∧
        2 - 1 = Z.of_nat (length (filter (λ r, issue_book_id r = "B1") rs)).
Proof.
  destruct (active_issues_match_counters blocked_with_loan)
    as (rs & H1 & _ & _ & H4 & _).
  - exists (setup "2" ++ [IssueBook "B1" "M1" (day 0); IssueBook "B1" "M1" (day 1);
                          ReturnBook "1" (day 200)]). reflexivity.
  - exists rs. split; [exact H1|].
    apply (H4 "B1" (mk_Book "B1" "Dune" "Herbert" "Fiction" 2 1)).
    vm_compute. reflexivity.
Defined.

Lemma datetime_ltb_lt a b :
  datetime_ltb a b = true ↔
  dt_day a < dt_day b ∨ (dt_day a = dt_day b ∧ dt_micros a < dt_micros b).
Proof.
  unfold datetime_ltb.
  rewrite orb_true_iff, andb_true_iff, !Z.ltb_lt, Z.eqb_eq. tauto.
Qed.

(** X10. [is_overdue] looks at the time of day, [days_late] at the calendar
    day only: a record with at least one late day is overdue, an overdue
    record is never before its due day, and it is overdue with no late day
    exactly when the date compared falls on the due day at a later time. The
    date compared is the return date if there is one, else [on_date], else
    today. *)
Theorem late_days_imply_overdue r on_date today :
  let d := match on_date with None => today | Some d => d end in
  let effective := match return_date r with Some x => x | None => d end in
  (0 < days_late r d → is_overdue r on_date today = true) ∧
  (is_overdue r on_date today = true → date (due_date r) ≤ date effective) ∧
  (is_overdue r on_date today = true ∧ days_late r d = 0 ↔
   date effective = date (due_date r) ∧
   dt_micros (due_date r) < dt_micros effective).
Proof.
  simpl.
  set (d := match on_date with None => today | Some d => d end).
  set (effective := match return_date r with Some x => x | None => d end).
  assert (Ho : is_overdue r on_date today = datetime_ltb (due_date r) effective).
  { unfold is_overdue. subst effective d. by destruct (return_date r). }
  assert (Hl : days_late r d = Z.max 0 (date effective - date (due_date r))).
  { unfold days_late. subst effective. by destruct (return_date r). }
  rewrite Ho, Hl, datetime_ltb_lt. unfold date. lia.
Qed.

Lemma late_days_imply_overdue_witness :
  is_overdue (mk_IssueRecord 1 "B1" "M1" (day 0) (day 14) None 0)
             (Some (mk_datetime 14 1)) (day 0) = true ∧
  days_late (mk_IssueRecord 1 "B1" "M1" (day 0) (day 14) None 0)
            (mk_datetime 14 1) = 0.
Proof.
  apply (proj2 (proj2 (late_days_imply_overdue
           (mk_IssueRecord 1 "B1" "M1" (day 0) (day 14) None 0)
           (Some (mk_datetime 14 1)) (day 0)))).
  simpl. split; [reflexivity | lia].
Defined.

Lemma reminder_known today s k r b m :
  wf s →
  issues s !! k = Some r →
  return_date r = None →
  books s !! issue_book_id r = Some b →
  members s !! issue_member_id r = Some m →
  reminder today s r
  = let days_to_due := date (due_date r) - date today in
    if days_to_due <? 0 then
      [LineOverdue k (title b) (name m) (due_date r) (- days_to_due)]
    else if days_to_due <=? 2 then
      [LineDueSoon k (title b) (name m) days_to_due (due_date r)]
    else [].
Proof.
  intros W Hr Hret Hb Hm. unfold reminder. rewrite Hret, Hb, Hm.
  by destruct (wf_ids s W k r Hr) as [_ ->].
Qed.

Lemma reminders_elem today s line :
  wf s →
  line ∈ show_due_and_overdue_reminders today s →
  line = LineNoReminders ∨
  ∃ k r, issues s !! k = Some r ∧ line ∈ reminder today s r.
Proof.
  intros W. unfold show_due_and_overdue_reminders.
  destruct (issue_values s ≫= reminder today s) as [|l ls] eqn:E.
  - intros ->%list_elem_of_singleton. by left.
  - rewrite <- E. intros (r & Hline & Hr)%list_elem_of_bind.
    apply issue_values_elem in Hr as [k Hk]; [|exact W]. right. eauto.
Qed.

Lemma reminders_intro today s k r line :
  wf s →
  issues s !! k = Some r →
  line ∈ reminder today s r →
  line ∈ show_due_and_overdue_reminders today s.
Proof.
  intros W Hr Hline. unfold show_due_and_overdue_reminders.
  assert (Hin : line ∈ issue_values s ≫= reminder today s).
  { apply list_elem_of_bind. exists r. split; [exact Hline|].
    apply issue_values_elem; eauto. }
  destruct (issue_values s ≫= reminder today s) as [|l ls]; [|exact Hin].
  by apply elem_of_nil in Hin.
Qed.

(** X11. An "[OVERDUE]" reminder announces what a return on that day costs:
    in a reachable store such a line stands for an active record, names the
    title of its book and the name of its member (never "Unknown"), and its
    "Late by" figure is positive and is the number of late days that
    [return_book], run the same day on that issue id, reports and multiplies
    by [FINE_PER_DAY]. *)
Theorem overdue_reminder_matches_return s today iid bt mn due late issue_id_str :
  reachable s →
  LineOverdue iid bt mn due late ∈ show_due_and_overdue_reminders today s →
  Py.isdigit issue_id_str = true →
  Py.int issue_id_str = Some iid →
  ∃ r b m tail,
    issues s !! iid = Some r ∧ return_date r = None ∧ due = due_date r ∧
    books s !! issue_book_id r = Some b ∧ bt = title b ∧
    members s !! issue_member_id r = Some m ∧ mn = name m ∧
    0 < late ∧ late = days_late r today ∧
    (return_book issue_id_str today s).1
    = MsgReturnRecorded late (late * FINE_PER_DAY)
        (outstanding_fine m + late * FINE_PER_DAY) :: tail.
Proof.
  intros Hreach Hline Hd Hi. apply reachable_wf in Hreach as W.
  apply reminders_elem in Hline as [Hline|(k & r & Hr & Hline)];
    [discriminate | | exact W].
  destruct (wf_refs s W k r Hr) as [[b Hb] [m Hm]].
  destruct (return_date r) as [d|] eqn:Hret.
  { unfold reminder in Hline. rewrite Hret in Hline. by apply elem_of_nil in Hline. }
  rewrite (reminder_known today s k r b m W Hr Hret Hb Hm) in Hline. simpl in Hline.
  destruct (date (due_date r) - date today <? 0) eqn:E1.
  - apply list_elem_of_singleton in Hline. injection Hline as -> -> -> -> ->.
    apply Z.ltb_lt in E1.
    assert (Hlate : - (date (due_date r) - date today) = days_late r today).
    { rewrite (active_days_late r today Hret). lia. }
    exists r, b, m. eexists.
    repeat (split; [by (try done; try lia)|]).
    rewrite (return_book_success _ today _ _ _ _ _ Hd Hi Hr Hret Hb Hm). simpl.
    rewrite Hlate, (active_days_late r today Hret). reflexivity.
  - destruct (date (due_date r) - date today <=? 2).
    + apply list_elem_of_singleton in Hline. discriminate.
    + by apply elem_of_nil in Hline.
Qed.

Lemma overdue_reminder_matches_return_witness :
  ∃ r m tail,
    issues blocked_with_loan !! 2 = Some r ∧
    members blocked_with_loan !! issue_member_id r = Some m ∧
    (return_book "2" (day 201) blocked_with_loan).1
    = MsgReturnRecorded 186 (186 * FINE_PER_DAY)
        (outstanding_fine m + 186 * FINE_PER_DAY) :: tail.
Proof.
  destruct (overdue_reminder_matches_return blocked_with_loan (day 201) 2
              "Dune" "Asha" (day 15) 186 "2")
    as (r & b & m & tail & Hr & _ & _ & _ & _ & Hm & _ & _ & _ & Hout).
  - exists (setup "2" ++ [IssueBook "B1" "M1" (day 0); IssueBook "B1" "M1" (day 1);
                          ReturnBook "1" (day 200)]). reflexivity.
  - vm_compute. apply list_elem_of_singleton. reflexivity.
  - reflexivity.
  - reflexivity.
  - exists r, m, tail. split; [exact Hr|]. split; [exact Hm | exact Hout].
Defined.

(** X12. The reminders cover every active record: in a reachable store a
    record without return date gets an "[OVERDUE]" line with the days past its
    due day when today is after the due day, a "[DUE SOON]" line with the days
    left when the due day is today or at most 2 days ahead, and no line when
    the due day is further away. *)
Theorem reminders_cover_active_records s today k r b m :
  reachable s →
  issues s !! k = Some r →
  return_date r = None →
  books s !! issue_book_id r = Some b →
  members s !! issue_member_id r = Some m →
  let lines := show_due_and_overdue_reminders today s in
  let days_to_due := date (due_date r) - date today in
  (days_to_due < 0 →
   LineOverdue k (title b) (name m) (due_date r) (- days_to_due) ∈ lines) ∧
  (0 ≤ days_to_due ≤ 2 →
   LineDueSoon k (title b) (name m) days_to_due (due_date r) ∈ lines) ∧
  (2 < days_to_due →
   ∀ bt mn due n, (LineOverdue k bt mn due n ∉ lines) ∧
                  (LineDueSoon k bt mn n due ∉ lines)).
Proof.
  intros Hreach Hr Hret Hb Hm. apply reachable_wf in Hreach as W. simpl.
  pose proof (reminder_known today s k r b m W Hr Hret Hb Hm) as Hrem.
  simpl in Hrem. split; [|split].
  - intros Hlt. apply (reminders_intro today s k r _ W Hr). rewrite Hrem.
    apply Z.ltb_lt in Hlt. rewrite Hlt. by apply list_elem_of_singleton.
  - intros [Hge Hle]. apply (reminders_intro today s k r _ W Hr). rewrite Hrem.
    apply Z.ltb_ge in Hge. apply Z.leb_le in Hle. rewrite Hge, Hle.
    by apply list_elem_of_singleton.
  - intros Hgt.
    assert (Hnone : ∀ line, line ∈ show_due_and_overdue_reminders today s →
              match line with
              | LineOverdue i _ _ _ _ | LineDueSoon i _ _ _ _ => i ≠ k
              | _ => True
              end).
    { intros line Hline.
      apply reminders_elem in Hline as [->|(k' & r' & Hr' & Hline)];
        [done | | exact W].
      destruct (wf_ids s W k' r' Hr') as [_ Hid].
      assert (Hcase : ∀ l, l ∈ reminder today s r' →
                match l with
                | LineOverdue i _ _ _ _ | LineDueSoon i _ _ _ _ => i = k'
                | _ => True
                end).
      { intros l. unfold reminder.
        destruct (return_date r'); [by intros ?%elem_of_nil|]. cbv zeta.
        destruct (date (due_date r') - date today <? 0);
          [intros ->%list_elem_of_singleton; exact Hid|].
        destruct (date (due_date r') - date today <=? 2);
          [intros ->%list_elem_of_singleton; exact Hid|].
        by intros ?%elem_of_nil. }
      specialize (Hcase line Hline).
      destruct line; try done; intros ->; subst k';
        assert (r' = r) as -> by congruence;
        rewrite Hrem in Hline;
        assert ((date (due_date r) - date today <? 0) = false) as E1
          by (apply Z.ltb_ge; lia);
        assert ((date (due_date r) - date today <=? 2) = false) as E2
          by (apply Z.leb_gt; lia);
        rewrite E1, E2 in Hline; by apply elem_of_nil in Hline. }
    intros bt mn due n. split; intros Hin; by apply (Hnone _ Hin).
Qed.

Lemma reminders_cover_active_records_witness :
  LineDueSoon 1 "Dune" "Asha" 1 (day 14)
  ∈ show_due_and_overdue_reminders (day 13) lent_once.
Proof.
  refine (proj1 (proj2 (reminders_cover_active_records lent_once (day 13) 1
    (mk_IssueRecord 1 "B1" "M1" (day 0) (day 14) None 0)
    (mk_Book "B1" "Dune" "Herbert" "Fiction" 1 0)
    (mk_Member "M1" "Asha" "555" false 0 ["B1"]) _ _ _ _ _)) _).
  - exists (setup "1" ++ [IssueBook "B1" "M1" (day 0)]). reflexivity.
  - vm_compute. reflexivity.
  - reflexivity.
  - vm_compute. reflexivity.
  - vm_compute. reflexivity.
  - simpl. lia.
Defined.

(** ** Issue followed by return *)

Lemma issue_book_result bid mid today s b m :
  wf s →
  books s !! bid = Some b →
  members s !! mid = Some m →
  blocked m = false →
  0 < available_copies b →
  let record := mk_IssueRecord (next_issue_id s) bid mid today
                  (add_days today ISSUE_DAYS) None 0 in
  issue_book bid mid today s
  = ([MsgBookIssued record],
     {| books := <[bid := set_available_copies (available_copies b - 1) b]> (books s);
        members := <[mid := set_borrowed_books (borrowed_books m ++ [bid]) m]>
                     (members s);
        issues := <[next_issue_id s := record]> (issues s);
        next_issue_id := next_issue_id s + 1 |}).
Proof.
  intros W Hb Hm Hbl Hav. simpl. unfold issue_book. rewrite Hb, Hm.
  rewrite (recheck_unchanged m) by (by apply (wf_block s W mid)).
  rewrite Hbl.
  destruct (available_copies b <=? 0) eqn:E; [apply Z.leb_le in E; lia|].
  simpl. by rewrite insert_insert_eq.
Qed.

Lemma remove_app_last_perm x l : Py.remove x (l ++ [x]) ≡ₚ l.
Proof.
  induction l as [|y l IH]; simpl.
  - by rewrite decide_True.
  - destruct (decide (x = y)) as [->|Hne].
    + symmetry. apply Permutation_cons_append.
    + by rewrite IH.
Qed.

Lemma remove_app_last_fresh x l : x ∉ l → Py.remove x (l ++ [x]) = l.
Proof.
  induction l as [|y l IH]; simpl; intros Hnin.
  - by rewrite decide_True.
  - apply not_elem_of_cons in Hnin as [Hne Hnin].
    rewrite decide_False by exact Hne. by rewrite IH.
Qed.

(** X13. Issuing a book and returning it by its due day undoes the issue in
    the catalogue and the roster: in a reachable store, after a successful
    [issue_book] and a [return_book] of the new issue id on a day not after
    the due day, every book is as before, the member has the same fine and
    flag and the same borrowed books up to their order (exactly the same list
    when the member did not already hold the book), and the ledger has one
    more record, returned and without fine. *)
Theorem issue_then_return_on_time issue_id_str bid mid today back s b m :
  reachable s →
  books s !! bid = Some b →
  members s !! mid = Some m →
  blocked m = false →
  0 < available_copies b →
  Py.isdigit issue_id_str = true →
  Py.int issue_id_str = Some (next_issue_id s) →
  date back ≤ date today + ISSUE_DAYS →
  let s2 := (return_book issue_id_str back (issue_book bid mid today s).2).2 in
  books s2 = books s ∧
  (∃ m', members s2 = <[mid := m']> (members s) ∧
         set_borrowed_books (borrowed_books m) m' = m ∧
         borrowed_books m' ≡ₚ borrowed_books m) ∧
  (bid ∉ borrowed_books m → members s2 = members s) ∧
  issues s2
  = <[next_issue_id s := mk_IssueRecord (next_issue_id s) bid mid today
                           (add_days today ISSUE_DAYS) (Some back) 0]> (issues s) ∧
  next_issue_id s2 = next_issue_id s + 1.
Proof.
  intros Hreach Hb Hm Hbl Hav Hd Hi Hback. apply reachable_wf in Hreach as W.
  rewrite (issue_book_result bid mid today s b m W Hb Hm Hbl Hav). simpl.
  set (record := mk_IssueRecord (next_issue_id s) bid mid today
                   (add_days today ISSUE_DAYS) None 0).
  set (b1 := set_available_copies (available_copies b - 1) b).
  set (m1 := set_borrowed_books (borrowed_books m ++ [bid]) m).
  set (s1 := mk_store _ _ _ _).
  assert (H1 : issues s1 !! next_issue_id s = Some record) by apply lookup_insert_eq.
  assert (H2 : books s1 !! issue_book_id record = Some b1) by apply lookup_insert_eq.
  assert (H3 : members s1 !! issue_member_id record = Some m1)
    by apply lookup_insert_eq.
  rewrite (return_book_success issue_id_str back s1 (next_issue_id s) record b1 m1
             Hd Hi H1 eq_refl H2 H3).
  simpl.
  assert (Hlate : Z.max 0 (date back - (date today + ISSUE_DAYS)) = 0) by lia.
  unfold date in Hlate |- *. simpl in Hlate. rewrite Hlate.
  assert (Hfine : outstanding_fine m < MAX_FINE_LIMIT).
  { pose proof (wf_block s W mid m Hm) as H. rewrite Hbl in H.
    symmetry in H. apply bool_decide_eq_false in H. lia. }
  assert (Hcheck : check_and_update_block_status
                     (set_outstanding_fine (outstanding_fine m + 0 * FINE_PER_DAY) m1)
                   = m1).
  { unfold check_and_update_block_status. simpl.
    destruct (MAX_FINE_LIMIT <=? outstanding_fine m + 0 * FINE_PER_DAY) eqn:E;
      [apply Z.leb_le in E; lia|].
    subst m1. destruct m as [i n p bl f l]. simpl in *. rewrite Hbl.
    unfold set_blocked, set_borrowed_books, set_outstanding_fine. simpl.
    f_equal. lia. }
  rewrite Hcheck. simpl.
  assert (Hc : Py.contains bid (borrowed_books m ++ [bid]) = true).
  { apply bool_decide_eq_true_2. apply elem_of_app. right. by left. }
  rewrite Hc. simpl. rewrite !insert_insert_eq.
  assert (Hbook : set_available_copies (available_copies b - 1 + 1) b1 = b).
  { subst b1. destruct b as [i t a c tot av].
    unfold set_available_copies. simpl. f_equal. lia. }
  rewrite Hbook. rewrite (insert_id (books s) bid b Hb).
  split; [done|]. split; [|split; [|split]]; try done.
  - eexists. split; [reflexivity|]. simpl. split.
    + by destruct m.
    + apply remove_app_last_perm.
  - intros Hnin. rewrite (remove_app_last_fresh bid _ Hnin).
    apply insert_id. rewrite Hm. f_equal. by destruct m.
Qed.

Lemma issue_then_return_on_time_witness :
  books (return_book "1" (day 14)
           (issue_book "B1" "M1" (day 0) (one_book_one_member "1")).2).2
  = books (one_book_one_member "1").
Proof.
  refine (proj1 (issue_then_return_on_time "1" "B1" "M1" (day 0) (day 14)
    (one_book_one_member "1")
    (mk_Book "B1" "Dune" "Herbert" "Fiction" 1 1)
    (mk_Member "M1" "Asha" "555" false 0 []) _ _ _ _ _ _ _ _)).
  - exists (setup "1"). reflexivity.
  - vm_compute. reflexivity.
  - vm_compute. reflexivity.
  - reflexivity.
  - simpl. lia.
  - reflexivity.
  - reflexivity.
  - simpl. unfold ISSUE_DAYS. lia.
Defined.

(** X14. In a reachable store the defensive branches of [return_book] are
    never taken: it never reports "Book or Member record missing. Cannot
    proceed safely.", and a return of an active record always finds the book
    id in the member's [borrowed_books], which becomes one entry shorter. *)
Theorem return_book_never_missing issue_id_str today s :
  reachable s →
  (MsgRecordMissing ∉ (return_book issue_id_str today s).1) ∧
  (∀ iid r m,
     Py.isdigit issue_id_str = true →
     Py.int issue_id_str = Some iid →
     issues s !! iid = Some r →
     return_date r = None →
     members s !! issue_member_id r = Some m →
     ∃ m', members (return_book issue_id_str today s).2 !! issue_member_id r
           = Some m' ∧
           borrowed_books m' = Py.remove (issue_book_id r) (borrowed_books m) ∧
           S (length (borrowed_books m')) = length (borrowed_books m)).
Proof.
  intros Hreach. apply reachable_wf in Hreach as W.
  assert (Hlen : ∀ x l, x ∈ l → S (length (Py.remove x l)) = length l).
  { intros x l. induction l as [|y l IH]; simpl; intros Hin.
    - by apply elem_of_nil in Hin.
    - destruct (decide (x = y)) as [->|Hne]; [done|]. simpl. f_equal.
      apply IH. apply elem_of_cons in Hin as [->|Hin]; [done | exact Hin]. }
  split.
  - destruct (Py.isdigit issue_id_str) eqn:Hd.
    + destruct (isdigit_int _ Hd) as (iid & Hi & _).
      destruct (issues s !! iid) as [r|] eqn:Hr.
      * destruct (return_date r) as [d|] eqn:Hret.
        -- rewrite (return_book_returned _ today _ _ _ _ Hd Hi Hr Hret). simpl.
           intros H%list_elem_of_singleton. discriminate.
        -- destruct (wf_refs s W iid r Hr) as [[b Hb] [m Hm]].
           rewrite (return_book_success _ today _ _ _ _ _ Hd Hi Hr Hret Hb Hm).
           simpl. intros H. apply elem_of_cons in H as [H|H]; [discriminate|].
           destruct (blocked _);
             [apply list_elem_of_singleton in H; discriminate
             | by apply elem_of_nil in H].
      * unfold return_book. rewrite Hd, Hi, Hr. simpl.
        intros H%list_elem_of_singleton. discriminate.
    + unfold return_book. rewrite Hd. simpl.
      intros H%list_elem_of_singleton. discriminate.
  - intros iid r m Hd Hi Hr Hret Hm.
    destruct (wf_refs s W iid r Hr) as [[b Hb] _].
    rewrite (return_book_success _ today _ _ _ _ _ Hd Hi Hr Hret Hb Hm). simpl.
    destruct (check_and_update_block_status_fields
                (set_outstanding_fine
                   (outstanding_fine m
                    + Z.max 0 (date today - date (due_date r)) * FINE_PER_DAY) m))
      as (_ & _ & _ & _ & Hbor & _).
    simpl in Hbor. rewrite Hbor.
    assert (Hin : issue_book_id r ∈ borrowed_books m).
    { apply occurrences_pos. rewrite (wf_held s W _ _ (issue_book_id r) Hm).
      apply (count_records_pos _ _ iid r Hr). by repeat split. }
    unfold Py.contains. rewrite bool_decide_eq_true_2 by exact Hin.
    eexists. split; [apply lookup_insert_eq|]. simpl.
    split; [reflexivity | by apply Hlen].
Qed.

Lemma return_book_never_missing_witness :
  ∃ m', members (return_book "1" (day 3) lent_twice).2 !! "M1" = Some m' ∧
        borrowed_books m' = Py.remove "B1" ["B1"; "B1"] ∧
        S (length (borrowed_books m')) = 2%nat.
Proof.
  destruct (return_book_never_missing "1" (day 3) lent_twice) as [_ H].
  - exists (setup "2" ++ [IssueBook "B1" "M1" (day 0); IssueBook "B1" "M1" (day 1)]).
    reflexivity.
  - apply (H 1 (mk_IssueRecord 1 "B1" "M1" (day 0) (day 14) None 0)
             (mk_Member "M1" "Asha" "555" false 0 ["B1"; "B1"])).
    + reflexivity.
    + reflexivity.
    + vm_compute. reflexivity.
    + reflexivity.
    + vm_compute. reflexivity.
Defined.

(** ** Input of numbers, catalogue and roster *)

(** X15. [input_int] returns the first line that is an integer not below the
    minimum: the lines before it, each either not an integer or too small, are
    answered by one message each, in order, and the lines after it are not
    read. The lines read are plain ones (ASCII, at most 4300 characters). *)
Theorem input_int_first_valid pre line post minimum v :
  forallb Py.plain (pre ++ [line]) = true →
  Forall (λ l, ∀ x, Py.int l = Some x → x < minimum) pre →
  Py.int line = Some v →
  minimum ≤ v →
  input_int (pre ++ line :: post) minimum
  = ((λ l, match Py.int l with
           | Some _ => MsgValueTooSmall minimum
           | None => MsgNotAnInteger
           end) <$> pre,
     Some v).
Proof.
  intros _ Hpre Hline Hmin. induction Hpre as [|l pre Hl Hpre IH]; simpl.
  - rewrite Hline. destruct (v <? minimum) eqn:E; [apply Z.ltb_lt in E; lia|done].
  - rewrite IH. destruct (Py.int l) as [x|] eqn:Hx; [|done].
    specialize (Hl x eq_refl). apply Z.ltb_lt in Hl. by rewrite Hl.
Qed.

Lemma input_int_first_valid_witness :
  input_int ["abc"; "0"; " 12 "; "7"] 1
  = ([MsgNotAnInteger; MsgValueTooSmall 1], Some 12).
Proof.
  apply (input_int_first_valid ["abc"; "0"] " 12 " ["7"] 1 12).
  - reflexivity.
  - repeat constructor; intros x Hx; vm_compute in Hx; [discriminate|].
    injection Hx as <-. lia.
  - reflexivity.
  - lia.
Defined.

(** X16. On plain lines (ASCII, at most 4300 characters) [input_int] runs out
    of input (the [EOFError] of [input]) exactly when no line is an integer not
    below the minimum; it has then answered every line with a message. *)
Theorem input_int_exhausted lines minimum :
  forallb Py.plain lines = true →
  ((input_int lines minimum).2 = None ↔
   Forall (λ l, ∀ x, Py.int l = Some x → x < minimum) lines) ∧
  ((input_int lines minimum).2 = None →
   length (input_int lines minimum).1 = length lines).
Proof.
  intros _. induction lines as [|l lines [IH1 IH2]]; simpl.
  - split; [split; [constructor | done] | done].
  - destruct (Py.int l) as [x|] eqn:Hx.
    + destruct (x <? minimum) eqn:E.
      * apply Z.ltb_lt in E.
        destruct (input_int lines minimum) as [out res]; simpl in *.
        split; [split|].
        -- intros H. constructor; [|by apply IH1].
           intros y Hy. assert (y = x) as -> by congruence. exact E.
        -- intros H. apply IH1. by apply Forall_cons in H as [_ H].
        -- intros H. f_equal. by apply IH2.
      * apply Z.ltb_ge in E. simpl. split; [split|]; try discriminate.
        intros H. apply Forall_cons in H as [H _]. specialize (H x Hx). lia.
    + destruct (input_int lines minimum) as [out res]; simpl in *.
      split; [split|].
      * intros H. constructor; [|by apply IH1]. intros y Hy. congruence.
      * intros H. apply IH1. by apply Forall_cons in H as [_ H].
      * intros H. f_equal. by apply IH2.
Qed.

Lemma input_int_exhausted_witness :
  length (input_int ["abc"; "0"; "-3"] 1).1 = 3%nat.
Proof.
  apply (proj2 (input_int_exhausted ["abc"; "0"; "-3"] 1 eq_refl)). reflexivity.
Defined.

(** X17. [add_book] never touches what is there: an existing book keeps all
    its fields, also when its own id is entered again (the call is then
    refused and the copy counters are not reset), and members, issue records
    and the id counter stay the same. *)
Theorem add_book_keeps_catalogue bid ttl auth cat total_lines s k b :
  books s !! k = Some b →
  let s' := (add_book bid ttl auth cat total_lines s).2 in
  books s' !! k = Some b ∧
  members s' = members s ∧ issues s' = issues s ∧
  next_issue_id s' = next_issue_id s ∧
  (k = bid → add_book bid ttl auth cat total_lines s = ([MsgBookIdExists], s)).
Proof.
  intros Hb. simpl. unfold add_book.
  destruct (books s !! bid) as [b0|] eqn:Hbid.
  - repeat split; done.
  - destruct (input_int total_lines 1) as [out [total|]]; simpl.
    + repeat split; try done.
      * rewrite lookup_insert_ne; [done | congruence].
      * intros ->. congruence.
    + repeat split; try done. intros ->. congruence.
Qed.

Lemma add_book_keeps_catalogue_witness :
  add_book "B1" "Other" "Nobody" "None" ["9"] lent_once
  = ([MsgBookIdExists], lent_once).
Proof.
  refine (proj2 (proj2 (proj2 (proj2 (add_book_keeps_catalogue "B1" "Other" "Nobody"
    "None" ["9"] lent_once "B1" (mk_Book "B1" "Dune" "Herbert" "Fiction" 1 0) _))))
    eq_refl).
  vm_compute. reflexivity.
Defined.

(** X18. [register_member] never touches what is there: an existing member
    keeps the fine, the blocked flag and the borrowed books, also when the
    same id is registered again (the call is then refused), and books, issue
    records and the id counter stay the same. *)
Theorem register_member_keeps_roster mid nm ph s k m :
  members s !! k = Some m →
  let s' := (register_member mid nm ph s).2 in
  members s' !! k = Some m ∧
  books s' = books s ∧ issues s' = issues s ∧
  next_issue_id s' = next_issue_id s ∧
  (k = mid → register_member mid nm ph s = ([MsgMemberIdExists], s)).
Proof.
  intros Hm. simpl. unfold register_member.
  destruct (members s !! mid) as [m0|] eqn:Hmid; simpl.
  - repeat split; done.
  - repeat split; try done.
    + rewrite lookup_insert_ne; [done | congruence].
    + intros ->. congruence.
Qed.

Lemma register_member_keeps_roster_witness :
  register_member "M1" "Someone" "000" blocked_with_loan
  = ([MsgMemberIdExists], blocked_with_loan).
Proof.
  refine (proj2 (proj2 (proj2 (proj2 (register_member_keeps_roster "M1" "Someone"
    "000" blocked_with_loan "M1" (mk_Member "M1" "Asha" "555" true 930 ["B1"]) _))))
    eq_refl).
  vm_compute. reflexivity.
Defined.

(** X19. [update_book] changes the named book only: members, issue records and
    the id counter stay the same, every other book is untouched, the book
    keeps its id, and with all four fields left blank the store is unchanged
    ("Leave any field blank to keep existing value."). *)
Theorem update_book_frame bid new_title new_author new_category new_total_str s :
  let s' := (update_book bid new_title new_author new_category new_total_str s).2 in
  members s' = members s ∧ issues s' = issues s ∧
  next_issue_id s' = next_issue_id s ∧
  (∀ k, k ≠ bid → books s' !! k = books s !! k) ∧
  (∀ b, books s !! bid = Some b →
        ∃ b', books s' !! bid = Some b' ∧ book_id b' = book_id b) ∧
  (new_title = "" → new_author = "" → new_category = "" → new_total_str = "" →
   s' = s).
Proof.
  simpl. destruct (books s !! bid) as [b|] eqn:Hb.
  - pose proof (update_book_fields bid new_title new_author new_category
                  new_total_str s b Hb) as H. simpl in H.
    destruct (update_book_result bid new_title new_author new_category
                new_total_str s b Hb) as (out & b' & Heq & Hid & _ & _).
    rewrite Heq. simpl. repeat split; try done.
    + intros k Hk. by rewrite lookup_insert_ne.
    + intros b0 [= <-]. exists b'. split; [apply lookup_insert_eq | exact Hid].
    + intros -> -> -> ->. simpl in H. rewrite Heq in H.
      injection H as _ Hs. rewrite Hs.
      assert (mk_Book (book_id b) (title b) (author b) (category b)
                (total_copies b) (available_copies b) = b) as -> by (by destruct b).
      rewrite (insert_id _ _ _ Hb). by destruct s.
  - unfold update_book. rewrite Hb. simpl. repeat split; done.
Qed.

Lemma update_book_frame_witness :
  (update_book "B1" "" "" "" "" lent_twice).2 = lent_twice.
Proof.
  refine (proj2 (proj2 (proj2 (proj2 (proj2
    (update_book_frame "B1" "" "" "" "" lent_twice))))) _ _ _ _);
    reflexivity.
Defined.

(** X20. Lending never edits the catalogue: [issue_book] and [return_book]
    leave the id, title, author, category and [total_copies] of every book as
    they are and move [available_copies] by at most one. *)
Theorem lending_keeps_catalogue_fields c s k b :
  match c with IssueBook _ _ _ | ReturnBook _ _ => True | _ => False end →
  books s !! k = Some b →
  ∃ b', books (exec c s).2 !! k = Some b' ∧
        book_id b' = book_id b ∧ title b' = title b ∧ author b' = author b ∧
        category b' = category b ∧ total_copies b' = total_copies b ∧
        -1 ≤ available_copies b' - available_copies b ≤ 1.
Proof.
  intros Hc Hb.
  assert (Hsame : ∃ b', books s !! k = Some b' ∧
            book_id b' = book_id b ∧ title b' = title b ∧ author b' = author b ∧
            category b' = category b ∧ total_copies b' = total_copies b ∧
            -1 ≤ available_copies b' - available_copies b ≤ 1).
  { exists b. repeat split; try done; lia. }
  assert (Hins : ∀ (bs : gmap string Book) i b0 delta,
            bs = books s → books s !! i = Some b0 → -1 ≤ delta ≤ 1 →
            ∃ b', <[i := set_available_copies (available_copies b0 + delta) b0]> bs
                    !! k = Some b' ∧
              book_id b' = book_id b ∧ title b' = title b ∧ author b' = author b ∧
              category b' = category b ∧ total_copies b' = total_copies b ∧
              -1 ≤ available_copies b' - available_copies b ≤ 1).
  { intros bs i b0 delta -> Hi Hdelta. destruct (decide (i = k)) as [->|Hne].
    - rewrite lookup_insert_eq. eexists. split; [reflexivity|].
      assert (b0 = b) as -> by congruence. simpl. repeat split; try done; lia.
    - rewrite lookup_insert_ne by exact Hne. exact Hsame. }
  destruct c as [| | | bid mid today | issue_id_str today]; try done; simpl.
  - unfold issue_book.
    destruct (books s !! bid) as [b0|] eqn:Hb0; [|exact Hsame].
    destruct (members s !! mid) as [m|]; [|exact Hsame].
    destruct (blocked _); [exact Hsame|].
    destruct (available_copies b0 <=? 0); [exact Hsame|]. simpl.
    apply (Hins _ bid b0 (-1)); [done | exact Hb0 | lia].
  - unfold return_book.
    destruct (negb _); [exact Hsame|].
    destruct (Py.int issue_id_str) as [iid|]; [|exact Hsame].
    destruct (issues s !! iid) as [r|]; [|exact Hsame].
    destruct (return_date r); [exact Hsame|].
    destruct (books s !! issue_book_id r) as [b0|] eqn:Hb0; [|exact Hsame].
    destruct (members s !! issue_member_id r) as [m|]; [|exact Hsame]. simpl.
    apply (Hins _ (issue_book_id r) b0 1); [done | exact Hb0 | lia].
Qed.

Lemma lending_keeps_catalogue_fields_witness :
  ∃ b', books (exec (ReturnBook "1" (day 20)) lent_once).2 !! "B1" = Some b' ∧
        title b' = "Dune" ∧ total_copies b' = 1.
Proof.
  destruct (lending_keeps_catalogue_fields (ReturnBook "1" (day 20)) lent_once "B1"
              (mk_Book "B1" "Dune" "Herbert" "Fiction" 1 0))
    as (b' & H1 & _ & H2 & _ & _ & H3 & _).
  - exact I.
  - vm_compute. reflexivity.
  - exists b'. split; [exact H1|]. split; [exact H2 | exact H3].
Defined.

(** X21. The copy counters stay in range: in a reachable store every book has
    [0 <= available_copies <= total_copies] and at least 0 copies in total, and
    the copies out, [total_copies - available_copies], are as many as the
    book has issue records without a return date. *)
Theorem copy_counters_in_range s k b :
  reachable s →
  books s !! k = Some b →
  0 ≤ available_copies b ≤ total_copies b ∧
  0 ≤ total_copies b ∧
  total_copies b - available_copies b
  = Z.of_nat (count_records (loan_of k) (issues s)).
Proof.
  intros Hreach Hb. apply reachable_wf in Hreach as W.
  pose proof (wf_issued s W k b Hb). pose proof (wf_avail s W k b Hb). lia.
Qed.

Lemma copy_counters_in_range_witness :
  2 - 1 = Z.of_nat (count_records (loan_of "B1") (issues blocked_with_loan)).
Proof.
  apply (copy_counters_in_range blocked_with_loan "B1"
           (mk_Book "B1" "Dune" "Herbert" "Fiction" 2 1)).
  - exists (setup "2" ++ [IssueBook "B1" "M1" (day 0); IssueBook "B1" "M1" (day 1);
                          ReturnBook "1" (day 200)]). reflexivity.
  - vm_compute. reflexivity.
Defined.
